(** * CarSocketService: the reconnecting car-control WebSocket channel

    A shallow embedding of [services/carSocket.ts] (class
    [CarSocketService]) and the properties its specification states.

    The service is a JavaScript object with five mutable fields, driven by
    calls of its public methods and by the callbacks the host runs for its
    sockets and for its reconnect timer.  The embedding is an exception and
    state monad over a [World] that holds the fields of the service next to
    the part of the host they alias: the WebSocket objects created so far
    (with their [readyState]), the pending timers, and a trace of the
    effects performed. *)

From Stdlib Require Import ZArith String Ascii List Lia Bool SpecFloat.
From stdpp Require Import base option list gmap strings pretty.

Open Scope string_scope.
Set Warnings "-register-all".

(** ** JavaScript values *)

(** The values that travel through the channel: parsed JSON, the payloads
    built from it, and the error objects handed to [error] subscribers.
    Numbers are the integer-valued ones; the service never inspects a
    number it receives. *)
Inductive JsVal : Type :=
  | JUndefined
  | JNull
  | JBool (b : bool)
  | JNum (n : Z)
  | JStr (s : string)
  | JArr (items : list JsVal)
  | JObj (fields : list (string * JsVal))
  | JError (message : string).

(** [o.k] on an object: own property or [undefined]. *)
Fixpoint assoc (k : string) (fields : list (string * JsVal)) : JsVal :=
  match fields with
  | [] => JUndefined
  | (k', v) :: rest => if String.eqb k k' then v else assoc k rest
  end.

(** [v === 'lit'] for a string literal. *)
Definition strict_eq_str (v : JsVal) (lit : string) : bool :=
  match v with
  | JStr s => String.eqb s lit
  | _ => false
  end.

(** ** Strings: the [String.prototype] methods the service calls *)

Definition startsWith (s pre : string) : bool := String.prefix pre s.

Definition endsWith (s suf : string) : bool :=
  (String.length suf <=? String.length s)%nat &&
  String.eqb (String.substring (String.length s - String.length suf)
                               (String.length suf) s) suf.

Fixpoint drop_chars (n : nat) (s : string) : string :=
  match n, s with
  | O, _ => s
  | S n', String _ s' => drop_chars n' s'
  | S _, EmptyString => EmptyString
  end.

(** [s.replace(pat, rep)] with a string pattern: the first occurrence only. *)
Fixpoint replace (pat rep s : string) : string :=
  if String.prefix pat s then rep ++ drop_chars (String.length pat) s
  else match s with
       | EmptyString => EmptyString
       | String c s' => String c (replace pat rep s')
       end.

(** ** The runtime the service runs in *)

(** What the service reads of a parsed [URL]. *)
Record URL := { protocol : string; host : string }.

(** A subscriber is a JavaScript function; [indexOf] compares functions by
    identity, which is all a [Handler] is here. *)
Abbreviation Handler := nat (only parsing).

(** The parts of the JavaScript runtime that the service calls and that are
    not its own code.
    - [URL_new s] is [new URL(s)] with its [protocol] and [host] read:
      [None] when any of that throws.
    - [JSON_parse s] is [JSON.parse(s)]: [None] on a [SyntaxError].
    - [handler_throws h d] is what calling the subscriber [h] on [d] does to
      a caller: [None] when [h] returns, [Some e] when it throws [e].
      Subscribers are observers: they do not call back into the service. *)
Class Runtime := {
    URL_new : string -> option URL;
    JSON_parse : string -> option JsVal;
    handler_throws : Handler -> JsVal -> option JsVal
  }.

(** ** URL derivation *)

Section Convert.
Context {R : Runtime}.

Definition convertToWebSocketUrl (backendUrl : string) : string :=
  match URL_new backendUrl with
  | Some url =>
      let protocol := if String.eqb (protocol url) "https:" then "wss:" else "ws:" in
      protocol ++ "//" ++ host url ++ "/ws"
  | None =>
      (* If URL parsing fails, try simple string replacement *)
      if startsWith backendUrl "http://" then
        replace "http://" "ws://" backendUrl ++ "/ws"
      else if startsWith backendUrl "https://" then
        replace "https://" "wss://" backendUrl ++ "/ws"
      else if startsWith backendUrl "ws://" || startsWith backendUrl "wss://" then
        (* Already a WebSocket URL, just ensure /ws path *)
        if endsWith backendUrl "/ws" then backendUrl else backendUrl ++ "/ws"
      else
        (* Default to ws:// *)
        "ws://" ++ backendUrl ++ "/ws"
  end.
End Convert.

(** ** The world: the service's fields and the host objects they alias *)

Inductive ReadyState := CONNECTING | OPEN | CLOSING | CLOSED.

Global Instance ReadyState_eq_dec : EqDecision ReadyState.
Proof. solve_decision. Defined.

(** What the service does to the outside, in program order.  [EEmit] marks
    each call of the private [emit]; [ECall] each subscriber actually
    called. *)
Inductive Effect :=
  | ENewSocket (s : nat) (url : string)
  | EClose (s : nat) (code : option Z) (reason : option string)
  | ESend (s : nat) (data : string)
  | ESetTimeout (t : nat) (delay : Z)
  | EClearTimeout (t : nat)
  | EEmit (event : string) (data : JsVal)
  | ECall (h : Handler) (data : JsVal)
  | ELog (msg : string).

(** [socket] and [reconnectTimeout] are references: a socket is its index in
    [sockets], the list of every WebSocket object constructed so far, and a
    timer is the id [setTimeout] returned (ids start at 1, so a stored id is
    truthy).  [timers] are the ids still pending. *)
Record World := mkWorld {
    socket : option nat;
    listeners : gmap string (list Handler);
    reconnectAttempts : nat;
    reconnectTimeout : option nat;
    wsUrl : string;
    sockets : list ReadyState;
    timers : list nat;
    next_timer : nat;
    trace : list Effect
  }.

Definition maxReconnectAttempts : nat := 5.
Definition reconnectDelay : Z := 2000.

(** [new CarSocketService()] in a host that has made no socket and no timer. *)
Definition initial : World :=
  {| socket := None; listeners := ∅; reconnectAttempts := 0;
     reconnectTimeout := None; wsUrl := ""; sockets := []; timers := [];
     next_timer := 1; trace := [] |}.

Definition set_socket (v : option nat) (w : World) : World :=
  mkWorld v (listeners w) (reconnectAttempts w) (reconnectTimeout w) (wsUrl w)
          (sockets w) (timers w) (next_timer w) (trace w).
Definition set_listeners (v : gmap string (list Handler)) (w : World) : World :=
  mkWorld (socket w) v (reconnectAttempts w) (reconnectTimeout w) (wsUrl w)
          (sockets w) (timers w) (next_timer w) (trace w).
Definition set_reconnectAttempts (v : nat) (w : World) : World :=
  mkWorld (socket w) (listeners w) v (reconnectTimeout w) (wsUrl w)
          (sockets w) (timers w) (next_timer w) (trace w).
Definition set_reconnectTimeout (v : option nat) (w : World) : World :=
  mkWorld (socket w) (listeners w) (reconnectAttempts w) v (wsUrl w)
          (sockets w) (timers w) (next_timer w) (trace w).
Definition set_wsUrl (v : string) (w : World) : World :=
  mkWorld (socket w) (listeners w) (reconnectAttempts w) (reconnectTimeout w) v
          (sockets w) (timers w) (next_timer w) (trace w).
Definition set_sockets (v : list ReadyState) (w : World) : World :=
  mkWorld (socket w) (listeners w) (reconnectAttempts w) (reconnectTimeout w)
          (wsUrl w) v (timers w) (next_timer w) (trace w).
Definition set_timers (v : list nat) (w : World) : World :=
  mkWorld (socket w) (listeners w) (reconnectAttempts w) (reconnectTimeout w)
          (wsUrl w) (sockets w) v (next_timer w) (trace w).
Definition set_next_timer (v : nat) (w : World) : World :=
  mkWorld (socket w) (listeners w) (reconnectAttempts w) (reconnectTimeout w)
          (wsUrl w) (sockets w) (timers w) v (trace w).
Definition effects (es : list Effect) (w : World) : World :=
  mkWorld (socket w) (listeners w) (reconnectAttempts w) (reconnectTimeout w)
          (wsUrl w) (sockets w) (timers w) (next_timer w) (trace w ++ es).
Definition effect (e : Effect) (w : World) : World := effects [e] w.

(** ** Computations that may throw *)

Inductive Completion (A : Type) :=
  | Normal (a : A)
  | Throw (e : JsVal).
Arguments Normal {A} a.
Arguments Throw {A} e.

Definition M (A : Type) : Type := World -> Completion A * World.

Definition ret {A} (a : A) : M A := fun w => (Normal a, w).
Definition throw {A} (e : JsVal) : M A := fun w => (Throw e, w).
Definition bind {A B} (m : M A) (k : A -> M B) : M B :=
  fun w => match m w with
           | (Normal a, w') => k a w'
           | (Throw e, w') => (Throw e, w')
           end.
(** [try { body } catch (e) { handler }] *)
Definition try_catch {A} (body : M A) (handler : JsVal -> M A) : M A :=
  fun w => match body w with
           | (Normal a, w') => (Normal a, w')
           | (Throw e, w') => handler e w'
           end.
Definition modify (f : World -> World) : M unit := fun w => (Normal tt, f w).
Definition gets {A} (f : World -> A) : M A := fun w => (Normal (f w), w).

Global Instance M_ret : MRet M := @ret.
Global Instance M_bind : MBind M := fun A B k m => bind m k.

Definition log (msg : string) : M unit := modify (effect (ELog msg)).

(** [a.forEach(f)]: left to right; a throw ends the loop. *)
Fixpoint forEach {A} (items : list A) (f : A -> M unit) : M unit :=
  match items with
  | [] => ret tt
  | x :: rest => f x ;; forEach rest f
  end.

(** ** Host primitives *)

(** [new WebSocket(url)].  Whether the host accepts the URL or throws is the
    host's choice, given as [accepted]; a new socket starts in CONNECTING. *)
Definition WebSocket_new (url : string) (accepted : bool) : M nat :=
  fun w =>
    if accepted then
      let s := length (sockets w) in
      (Normal s, effect (ENewSocket s url) (set_sockets (sockets w ++ [CONNECTING]) w))
    else (Throw (JError "SyntaxError"), w).

(** [ws.close(code, reason)]: starts the closing handshake unless the socket
    is already closing or closed; the close event comes later, from the host. *)
Definition ws_close (s : nat) (code : option Z) (reason : option string) : M unit :=
  modify (fun w =>
    effect (EClose s code reason)
      (set_sockets
         match sockets w !! s with
         | Some CONNECTING | Some OPEN => <[s := CLOSING]> (sockets w)
         | _ => sockets w
         end w)).

(** [ws.send(data)]: throws while CONNECTING, transmits when OPEN, and
    discards the data once the socket is closing or closed. *)
Definition ws_send (s : nat) (data : string) : M unit :=
  fun w =>
    match sockets w !! s with
    | Some CONNECTING => (Throw (JError "InvalidStateError"), w)
    | Some OPEN => (Normal tt, effect (ESend s data) w)
    | _ => (Normal tt, w)
    end.

Definition clearTimeout (t : nat) : M unit :=
  modify (fun w =>
    effect (EClearTimeout t)
      (set_timers (List.filter (fun t' => negb (Nat.eqb t' t)) (timers w)) w)).

(** [setTimeout(() => this.connectWebSocket(), delay)]: the only callback the
    service ever defers. *)
Definition setTimeout (delay : Z) : M nat :=
  fun w =>
    let t := next_timer w in
    (Normal t,
     effect (ESetTimeout t delay) (set_next_timer (S t) (set_timers (timers w ++ [t]) w))).

(** ** Numbers

    A JavaScript [number] is an IEEE 754 binary64 value: the [spec_float]
    of the Standard Library at precision 53 and maximal exponent 1024,
    with [NaN], the two infinities and the two zeros.  (A finite
    [spec_float] is a number when it is [valid_binary].) *)

Module Number.

Definition prec : Z := 53.
Definition emax : Z := 1024.

(** The number value of [m × 2^e]: the nearest binary64, ties to even. *)
Definition dyadic (m e : Z) : spec_float := binary_normalize prec emax m e false.
Definition of_Z (z : Z) : spec_float := dyadic z 0.

(** The mantissa brought to the exponent the format stores it with. *)
Definition canonical (m : positive) (e : Z) : positive * Z :=
  shl_align m e (fexp prec emax (Z.pos (digits2_pos m) + e)).

(** The least [n' >= n] with [p n'], and the first [k' >= k] where [f]
    answers, looking at [fuel] candidates. *)
Fixpoint least_from (fuel : nat) (n : Z) (p : Z -> bool) : Z :=
  match fuel with
  | O => n
  | S fuel => if p n then n else least_from fuel (n + 1)%Z p
  end.

Fixpoint first_from {A} (fuel : nat) (k : Z) (f : Z -> option A) : option A :=
  match fuel with
  | O => None
  | S fuel =>
      match f k with
      | Some a => Some a
      | None => first_from fuel (k + 1)%Z f
      end
  end.

Section Shortest.
Variables (m : positive) (e : Z).

Local Open Scope Z_scope.

(** [x = m × 2^e], measured in quarters of [2^e]: [x] is [4 m] quarters, and
    the numbers that round to [x] lie between [below] and [above], the
    midpoints to its two neighbours; the lower neighbour is half as far when
    [m] is a power of two. *)
Definition x : Z := 4 * Z.pos m.
Definition below : Z :=
  if (Z.pos m =? 2 ^ (prec - 1)) && (emin prec emax <? e) then x - 1 else x - 2.
Definition above : Z := x + 2.

(** [b] quarters and the decimal [s × 10^j], over the common denominator
    [down × 10^max(-j,0)], where [up / down] is the quarter [2^(e-2)]. *)
Definition up : Z := 2 ^ Z.max (e - 2) 0.
Definition down : Z := 2 ^ Z.max (2 - e) 0.

Section Scaled.
Variables (up down : Z).

Definition quarters (b j : Z) : Z := b * up * 10 ^ Z.max (- j) 0.
Definition decimal (s j : Z) : Z := s * down * 10 ^ Z.max j 0.

(** The [n] with [10^(n-1) <= x < 10^n].  The scan starts below it:
    [2^(b-1) <= x] for the bit length [b] of [x], and [log10 2 < 0.30103]. *)
Definition decade : Z :=
  let b := Z.pos (digits2_pos m) + e in
  least_from 4 ((b - 1) * 30103 / 100000) (fun n => quarters x n <? decimal 1 n).

(** The decimal of [k] digits nearest to [x] in its decade [n], if it
    rounds to [x]: a pair [(s, n)] that stands for [s × 10^(n-k)]. *)
Definition with_digits (n k : Z) : option (Z * Z) :=
  let j := n - k in
  let unit := decimal 1 j in
  let scale := up * 10 ^ Z.max (- j) 0 in
  let rounds_to s :=
    if Z.even (Z.pos m)
    then (below * scale <=? s * unit) && (s * unit <=? above * scale)
    else (below * scale <? s * unit) && (s * unit <? above * scale) in
  let distance s := Z.abs (s * unit - x * scale) in
  let c := x * scale / unit in
  let s :=
    match rounds_to c, rounds_to (c + 1) with
    | true, true =>
        if distance c <? distance (c + 1) then Some c
        else if distance (c + 1) <? distance c then Some (c + 1)
        else Some (if Z.even c then c else c + 1)
    | true, false => Some c
    | false, true => Some (c + 1)
    | false, false => None
    end in
  match s with
  | Some s => Some (if s =? 10 ^ k then (10 ^ (k - 1), n + 1) else (s, n))
  | None => None
  end.
End Scaled.

(** The [(s, n)] of [Number::toString]: the fewest digits [k] for which a
    decimal [s × 10^(n-k)] rounds to [x]; 17 digits always do. *)
Definition shortest : Z * Z :=
  let up := up in
  let down := down in
  let n := decade up down in
  default (x, 0) (first_from 17 1 (with_digits up down n)).
End Shortest.

(** [Number::toString(x)] in radix 10, from the digits [s] and the decade
    [n] of [x]: plain digits up to 21 integer digits, a fraction down to
    [1e-6], the exponent form beyond. *)
Definition zeros (n : Z) : string :=
  string_of_list_ascii (repeat "0"%char (Z.to_nat n)).

Definition format (s n : Z) : string :=
  let digits := pretty s in
  let k := Z.of_nat (String.length digits) in
  if ((k <=? n) && (n <=? 21))%Z then digits ++ zeros (n - k)
  else if ((0 <? n) && (n <=? 21))%Z then
    String.substring 0 (Z.to_nat n) digits ++ "." ++
    String.substring (Z.to_nat n) (Z.to_nat (k - n)) digits
  else if ((-6 <? n) && (n <=? 0))%Z then "0." ++ zeros (- n) ++ digits
  else
    String.substring 0 1 digits ++
    (if (k =? 1)%Z then "" else "." ++ String.substring 1 (Z.to_nat (k - 1)) digits) ++
    "e" ++ (if (0 <? n - 1)%Z then "+" else "-") ++ pretty (Z.abs (n - 1)).

Definition toString (v : spec_float) : string :=
  match v with
  | S754_nan => "NaN"
  | S754_infinity s => (if s then "-" else "") ++ "Infinity"
  | S754_zero _ => "0"
  | S754_finite sign m e =>
      let '(m, e) := canonical m e in
      let '(s, n) := shortest m e in
      (if sign then "-" else "") ++ format s n
  end.

End Number.

(** [JSON.stringify] of a number: a number that is not finite is written
    [null]. *)
Definition JSON_number (v : spec_float) : string :=
  match v with
  | S754_nan | S754_infinity _ => "null"
  | _ => Number.toString v
  end.

(** ** Outbound messages *)

Module Command.
Inductive t := forward | backward | left | right | stop.

Definition name (c : t) : string :=
  match c with
  | forward => "forward"
  | backward => "backward"
  | left => "left"
  | right => "right"
  | stop => "stop"
  end.
End Command.

Record CarCommand := { command : Command.t; speed : spec_float; timestamp : Z }.

Definition quoted (s : string) : string :=
  String (ascii_of_nat 34) s ++ String (ascii_of_nat 34) EmptyString.

(** [JSON.stringify] of a [CarCommand]: the keys in insertion order.  The
    timestamp is what [Date.now()] read, an integer number of
    milliseconds. *)
Definition JSON_stringify (m : CarCommand) : string :=
  "{" ++ quoted "command" ++ ":" ++ quoted (Command.name (command m)) ++
  "," ++ quoted "speed" ++ ":" ++ JSON_number (speed m) ++
  "," ++ quoted "timestamp" ++ ":" ++ JSON_number (Number.of_Z (timestamp m)) ++ "}".

(** [indexOf]: the first index holding [h], or -1. *)
Fixpoint indexOf (cbs : list Handler) (h : Handler) : Z :=
  match cbs with
  | [] => -1
  | c :: rest =>
      if Nat.eqb c h then 0
      else let i := indexOf rest h in if (i <? 0)%Z then -1 else (i + 1)%Z
  end.

(** [a.splice(i, 1)]: the array without the element at index [i]. *)
Definition splice1 (i : nat) (cbs : list Handler) : list Handler :=
  take i cbs ++ drop (S i) cbs.

(** The value of [v.k] where reading it does not throw; none of the
    property names the service reads exists on a primitive or on an array. *)
Definition prop (v : JsVal) (k : string) : JsVal :=
  match v with
  | JObj fields => assoc k fields
  | JError m => if String.eqb k "message" then JStr m else JUndefined
  | _ => JUndefined
  end.

(** [v.k]: a [TypeError] on [null] and [undefined]. *)
Definition member (v : JsVal) (k : string) : M JsVal :=
  match v with
  | JUndefined | JNull => throw (JError "TypeError")
  | _ => ret (prop v k)
  end.

(** ** The service *)

(** [this.socket?.readyState === WebSocket.OPEN]: ChannelState = Open. *)
Definition is_open (w : World) : bool :=
  match socket w with
  | Some s => bool_decide (sockets w !! s = Some OPEN)
  | None => false
  end.

Section Service.
Context {R : Runtime}.

(** Calling one subscriber. *)
Definition invoke (data : JsVal) (callback : Handler) : M unit :=
  modify (effect (ECall callback data));;
  match handler_throws callback data with
  | None => ret tt
  | Some e => throw e
  end.

(** Emit event to all listeners *)
Definition emit (event : string) (data : JsVal) : M unit :=
  modify (effect (EEmit event data));;
  callbacks ← gets (fun w => listeners w !! event);
  match callbacks with
  | Some callbacks => forEach callbacks (invoke data)
  | None => ret tt
  end.

Definition scheduleReconnect : M unit :=
  attempts ← gets reconnectAttempts;
  if (maxReconnectAttempts <=? attempts)%nat then
    log "Max car reconnection attempts reached";;
    emit "error" (JError "Max reconnection attempts reached")
  else
    modify (fun w => set_reconnectAttempts (S (reconnectAttempts w)) w);;
    log "Reconnecting car...";;
    (* Clear any existing timeout *)
    pending ← gets reconnectTimeout;
    match pending with
    | Some t => clearTimeout t
    | None => ret tt
    end;;
    t ← setTimeout reconnectDelay;
    modify (set_reconnectTimeout (Some t)).

(** [connectWebSocket]; the four [ws.on...] assignments install the
    callbacks below on the new socket and cannot throw. *)
Definition connectWebSocket (accepted : bool) : M unit :=
  try_catch
    ((* Close existing connection if any *)
     old ← gets socket;
     match old with
     | Some s => ws_close s None None;; modify (set_socket None)
     | None => ret tt
     end;;
     url ← gets wsUrl;
     ws ← WebSocket_new url accepted;
     modify (set_socket (Some ws)))
    (fun error =>
       log "Failed to create car WebSocket";;
       emit "error" error;;
       scheduleReconnect).

(** [ws.onopen] *)
Definition onopen : M unit :=
  log "Car WebSocket connected";;
  modify (set_reconnectAttempts 0);;
  (* Clear any pending reconnection *)
  pending ← gets reconnectTimeout;
  match pending with
  | Some t => clearTimeout t;; modify (set_reconnectTimeout None)
  | None => ret tt
  end;;
  emit "connected" (JBool true).

(** [ws.onmessage], on [event.data] *)
Definition onmessage (data : string) : M unit :=
  try_catch
    (message ← match JSON_parse data with
               | Some v => ret v
               | None => throw (JError "SyntaxError")
               end;
     type ← member message "type";
     if strict_eq_str type "car_status" then
       d ← member message "data";
       emit "status" d
     else if strict_eq_str type "car_ack" then
       c ← member message "command";
       s ← member message "status";
       emit "acknowledgment" (JObj [("command", c); ("status", s)])
     else if strict_eq_str type "car_connected" then
       d ← member message "device";
       s ← member message "status";
       emit "device_connected" (JObj [("device", d); ("status", s)])
     else if strict_eq_str type "car_disconnected" then
       emit "device_disconnected" (JBool true)
     else if strict_eq_str type "error" then
       m ← member message "message";
       log "Car control error";;
       emit "error" m
     else
       log "Unknown car message type")
    (fun error => log "Failed to parse car WebSocket message").

(** [ws.onerror] *)
Definition onerror (error : JsVal) : M unit :=
  log "Car WebSocket error";;
  emit "error" error.

(** [ws.onclose], on [event.code] *)
Definition onclose (code : Z) : M unit :=
  log "Car WebSocket disconnected";;
  emit "connected" (JBool false);;
  (* Auto-reconnect if not manually closed *)
  if negb (code =? 1000)%Z then scheduleReconnect else ret tt.

(** Check if WebSocket is connected *)
Definition isConnected : M bool := gets is_open.

(** Connect to WebSocket server *)
Definition connect (backendUrl : string) (accepted : bool) : M (option nat) :=
  connected ← isConnected;
  if (connected : bool) then
    log "Car already connected to WebSocket";;
    gets socket
  else
    modify (set_wsUrl (convertToWebSocketUrl backendUrl));;
    log "Connecting car";;
    connectWebSocket accepted;;
    gets socket.

(** Send car control command; [speed] is [None] when the argument is
    omitted, [now] is what [Date.now()] reads. *)
Definition sendCommand (command : Command.t) (speed : option spec_float) (now : Z)
  : M bool :=
  connected ← isConnected;
  if negb connected then
    log "Cannot send command: Car WebSocket not connected";;
    ret false
  else
    let message :=
      {| command := command; speed := default (Number.of_Z 200) speed;
         timestamp := now |} in
    try_catch
      (s ← gets socket;
       match s with
       | Some s => ws_send s (JSON_stringify message)
       | None => ret tt
       end;;
       log "Car command sent";;
       ret true)
      (fun error =>
         log "Failed to send car command";;
         emit "error" error;;
         ret false).

(** Register event listener *)
Definition on (event : string) (callback : Handler) : M unit :=
  modify (fun w =>
    let ls := match listeners w !! event with
              | Some _ => listeners w
              | None => <[event := []]> (listeners w)
              end in
    match ls !! event with
    | Some callbacks => set_listeners (<[event := (callbacks ++ [callback])%list]> ls) w
    | None => set_listeners ls w
    end).

(** Unregister event listener *)
Definition off (event : string) (callback : option Handler) : M unit :=
  modify (fun w =>
    match callback with
    | None => set_listeners (delete event (listeners w)) w
    | Some callback =>
        match listeners w !! event with
        | Some callbacks =>
            let index := indexOf callbacks callback in
            if (-1 <? index)%Z
            then set_listeners (<[event := splice1 (Z.to_nat index) callbacks]> (listeners w)) w
            else w
        | None => w
        end
    end).

(** Disconnect from WebSocket server *)
Definition disconnect : M unit :=
  s ← gets socket;
  match s with
  | Some s =>
      log "Disconnecting car WebSocket...";;
      (* Clear reconnection timeout *)
      pending ← gets reconnectTimeout;
      match pending with
      | Some t => clearTimeout t;; modify (set_reconnectTimeout None)
      | None => ret tt
      end;;
      (* Close with normal closure code (1000) to prevent auto-reconnect *)
      ws_close s (Some 1000%Z) (Some "Manual disconnect");;
      modify (set_socket None)
  | None => ret tt
  end;;
  modify (set_listeners ∅);;
  modify (set_reconnectAttempts 0).

(** Get WebSocket instance *)
Definition getSocket : M (option nat) := gets socket.

(** Reset reconnection attempts *)
Definition resetReconnectAttempts : M unit := modify (set_reconnectAttempts 0).
End Service.

(** ** The event loop *)

(** Everything that can happen to the service: a call of a public method,
    or the host running one of the callbacks the service installed.  [s] is
    the socket the callback belongs to, [t] the timer that fires. *)
Inductive Event :=
  | Connect (backendUrl : string) (accepted : bool)
  | SendCommand (command : Command.t) (speed : option spec_float) (now : Z)
  | On (event : string) (callback : Handler)
  | Off (event : string) (callback : option Handler)
  | Disconnect
  | IsConnected
  | GetSocket
  | ResetReconnectAttempts
  | WsOpen (s : nat)
  | WsMessage (s : nat) (data : string)
  | WsError (s : nat) (error : JsVal)
  | WsClose (s : nat) (code : Z)
  | TimerFired (t : nat) (accepted : bool).

Definition void {A} (m : M A) : M unit := bind m (fun _ => ret tt).

Definition set_readyState (s : nat) (st : ReadyState) : M unit :=
  modify (fun w => set_sockets (<[s := st]> (sockets w)) w).

Section Loop.
Context {R : Runtime}.

(** The host side of each callback follows the WebSocket interface: a
    socket opens once, from CONNECTING; delivers messages while OPEN; and
    closes once, from any state but CLOSED.  A timer fires only while it
    is pending.  An event that cannot occur leaves the world as it is. *)
Definition step (e : Event) : M unit :=
  match e with
  | Connect url accepted => void (connect url accepted)
  | SendCommand c speed now => void (sendCommand c speed now)
  | On ev cb => on ev cb
  | Off ev cb => off ev cb
  | Disconnect => disconnect
  | IsConnected => void isConnected
  | GetSocket => void getSocket
  | ResetReconnectAttempts => resetReconnectAttempts
  | WsOpen s =>
      st ← gets (fun w => sockets w !! s);
      match st with
      | Some CONNECTING => set_readyState s OPEN;; onopen
      | _ => ret tt
      end
  | WsMessage s data =>
      st ← gets (fun w => sockets w !! s);
      match st with
      | Some OPEN => onmessage data
      | _ => ret tt
      end
  | WsError s error =>
      st ← gets (fun w => sockets w !! s);
      match st with
      | Some CONNECTING | Some OPEN | Some CLOSING => onerror error
      | _ => ret tt
      end
  | WsClose s code =>
      st ← gets (fun w => sockets w !! s);
      match st with
      | Some CONNECTING | Some OPEN | Some CLOSING =>
          set_readyState s CLOSED;; onclose code
      | _ => ret tt
      end
  | TimerFired t accepted =>
      pending ← gets timers;
      if bool_decide (t ∈ pending) then
        modify (fun w =>
          set_timers (List.filter (fun t' => negb (Nat.eqb t' t)) (timers w)) w);;
        connectWebSocket accepted
      else ret tt
  end.

(** A run of the loop.  An exception that leaves a callback or a call is
    the caller's; the world keeps what was done before it. *)
Fixpoint run (events : list Event) (w : World) : World :=
  match events with
  | [] => w
  | e :: rest => run rest (snd (step e w))
  end.
End Loop.

(** ** Two concrete runtimes *)

Definition is_alpha (c : ascii) : bool :=
  let n := nat_of_ascii c in
  ((65 <=? n) && (n <=? 90) || (97 <=? n) && (n <=? 122))%nat.

Definition is_scheme_char (c : ascii) : bool :=
  let n := nat_of_ascii c in
  is_alpha c || ((48 <=? n) && (n <=? 57))%nat
  || Ascii.eqb c "+" || Ascii.eqb c "-" || Ascii.eqb c ".".

(** The scheme and what follows its colon. *)
Fixpoint split_scheme (s : string) : option (string * string) :=
  match s with
  | EmptyString => None
  | String c rest =>
      if Ascii.eqb c ":" then Some (EmptyString, rest)
      else if is_scheme_char c then
        match split_scheme rest with
        | Some (sch, tl) => Some (String c sch, tl)
        | None => None
        end
      else None
  end.

(** The authority: up to the first of [/], [?] and [#]. *)
Fixpoint authority (s : string) : string :=
  match s with
  | EmptyString => EmptyString
  | String c rest =>
      if Ascii.eqb c "/" || Ascii.eqb c "?" || Ascii.eqb c "#" then EmptyString
      else String c (authority rest)
  end.

(** A code point the URL Standard forbids in a host. *)
Definition is_forbidden_host_char (c : ascii) : bool :=
  Ascii.eqb c " " || Ascii.eqb c "<" || Ascii.eqb c ">" ||
  Ascii.eqb c "^" || Ascii.eqb c "|".

Fixpoint any_char (p : ascii -> bool) (s : string) : bool :=
  match s with
  | EmptyString => false
  | String c rest => p c || any_char p rest
  end.

(** [new URL(s)] after the URL Standard, for lower-case input without
    credentials and with a port that is not the scheme's default: a string
    with no scheme is rejected (there is no base URL); [scheme://authority]
    has the authority as host, unless it is empty or holds a forbidden code
    point; a scheme not followed by [//] has an opaque path and an empty
    host. *)
Definition URL_standard (s : string) : option URL :=
  match s with
  | EmptyString => None
  | String c _ =>
      if is_alpha c then
        match split_scheme s with
        | Some (sch, rest) =>
            if String.prefix "//" rest then
              let h := authority (drop_chars 2 rest) in
              if String.eqb h "" || any_char is_forbidden_host_char h then None
              else Some {| protocol := sch ++ ":"; host := h |}
            else Some {| protocol := sch ++ ":"; host := "" |}
        | None => None
        end
      else None
  end.

(** Sample frames and what [JSON.parse] makes of them. *)
Definition frame_status : string :=
  "{" ++ quoted "type" ++ ":" ++ quoted "car_status" ++ "," ++
  quoted "data" ++ ":{" ++ quoted "connected" ++ ":true}}".
Definition frame_ack : string :=
  "{" ++ quoted "type" ++ ":" ++ quoted "car_ack" ++ "," ++
  quoted "command" ++ ":" ++ quoted "stop" ++ "," ++
  quoted "status" ++ ":" ++ quoted "ok" ++ "}".
Definition frame_telemetry : string :=
  "{" ++ quoted "type" ++ ":" ++ quoted "telemetry" ++ "}".

Definition JSON_samples : list (string * JsVal) :=
  [ (frame_status,
     JObj [("type", JStr "car_status"); ("data", JObj [("connected", JBool true)])]);
    (frame_ack,
     JObj [("type", JStr "car_ack"); ("command", JStr "stop"); ("status", JStr "ok")]);
    (frame_telemetry, JObj [("type", JStr "telemetry")]);
    ("null", JNull) ].

Fixpoint lookup_sample (s : string) (table : list (string * JsVal)) : option JsVal :=
  match table with
  | [] => None
  | (k, v) :: rest => if String.eqb s k then Some v else lookup_sample s rest
  end.

(** Subscriber 13 throws whatever it is called with; every other one
    returns. *)
Definition faulty : Handler := 13.
Definition sample_handlers (h : Handler) (d : JsVal) : option JsVal :=
  if Nat.eqb h faulty then Some (JError "subscriber failed") else None.

(** A browser: [URL] after the standard. *)
Definition browser : Runtime :=
  {| URL_new := URL_standard;
     JSON_parse := fun s => lookup_sample s JSON_samples;
     handler_throws := sample_handlers |}.

(** A runtime whose [URL] does not implement [protocol] and [host]: reading
    them throws, so every derivation takes the [catch] branch. *)
Definition legacy : Runtime :=
  {| URL_new := fun _ => None;
     JSON_parse := fun s => lookup_sample s JSON_samples;
     handler_throws := sample_handlers |}.

(** * Properties *)

Open Scope list_scope.

(** ** Reading a trace *)

(** The wire writes, the subscriber calls, the [emit]s, the sockets
    constructed and the timers set, each in program order. *)
Definition writes (tr : list Effect) : list (nat * string) :=
  omap (fun e => match e with ESend s d => Some (s, d) | _ => None end) tr.
Definition calls (tr : list Effect) : list (Handler * JsVal) :=
  omap (fun e => match e with ECall h d => Some (h, d) | _ => None end) tr.
Definition emitted (tr : list Effect) : list (string * JsVal) :=
  omap (fun e => match e with EEmit ev d => Some (ev, d) | _ => None end) tr.
Definition created (tr : list Effect) : list nat :=
  omap (fun e => match e with ENewSocket s _ => Some s | _ => None end) tr.
Definition scheduled (tr : list Effect) : list nat :=
  omap (fun e => match e with ESetTimeout t _ => Some t | _ => None end) tr.
Definition closes (tr : list Effect) : list (nat * option Z) :=
  omap (fun e => match e with EClose s c _ => Some (s, c) | _ => None end) tr.

(** The subscribers of an event kind, in registration order. *)
Definition subscribers (w : World) (event : string) : list Handler :=
  default [] (listeners w !! event).

Section Emit.
Context {R : Runtime}.

(** The subscribers [forEach] reaches: all of them up to and including
    the first that throws. *)
Fixpoint invoked (cbs : list Handler) (d : JsVal) : list Handler :=
  match cbs with
  | [] => []
  | h :: rest =>
      h :: match handler_throws h d with
           | None => invoked rest d
           | Some _ => []
           end
  end.

(** What the first throwing subscriber throws. *)
Fixpoint thrown (cbs : list Handler) (d : JsVal) : option JsVal :=
  match cbs with
  | [] => None
  | h :: rest =>
      match handler_throws h d with
      | None => thrown rest d
      | Some e => Some e
      end
  end.

Definition completion (o : option JsVal) : Completion unit :=
  match o with
  | None => Normal tt
  | Some e => Throw e
  end.

Lemma effects_nil w : effects [] w = w.
Proof. destruct w; unfold effects; simpl. by rewrite app_nil_r. Qed.

Lemma effects_app a b w : effects b (effects a w) = effects (a ++ b) w.
Proof. unfold effects; simpl. by rewrite app_assoc. Qed.

Lemma forEach_invoke cbs d w :
  forEach cbs (invoke d) w =
  (completion (thrown cbs d), effects (map (fun h => ECall h d) (invoked cbs d)) w).
Proof.
  revert w. induction cbs as [|h rest IH]; intros w; simpl.
  - by rewrite effects_nil.
  - unfold invoke, mbind, M_bind, bind, modify, effect; simpl.
    destruct (handler_throws h d) as [e|]; simpl.
    + done.
    + unfold ret at 1. rewrite IH, effects_app. done.
Qed.

Lemma emit_eq event d w :
  emit event d w =
  (completion (thrown (subscribers w event) d),
   effects (EEmit event d :: map (fun h => ECall h d) (invoked (subscribers w event) d)) w).
Proof.
  unfold emit, subscribers, mbind, M_bind, bind, modify, gets, effect; simpl.
  destruct (listeners w !! event) as [cbs|]; simpl.
  - rewrite forEach_invoke, effects_app. done.
  - done.
Qed.

Lemma invoked_all cbs d :
  (forall h, h ∈ cbs -> handler_throws h d = None) ->
  invoked cbs d = cbs /\ thrown cbs d = None.
Proof.
  induction cbs as [|h rest IH]; intros Hq; simpl; [done|].
  rewrite (Hq h) by (apply elem_of_cons; by left).
  assert (Hr : forall h', h' ∈ rest -> handler_throws h' d = None)
    by (intros h' Hh'; apply Hq, elem_of_cons; by right).
  destruct (IH Hr) as [E1 E2]. by rewrite E1, E2.
Qed.
End Emit.

(** ** Subscriptions: [on], [off], [emit] *)

(** The list without its first [h]. *)
Fixpoint remove_first (h : Handler) (cbs : list Handler) : list Handler :=
  match cbs with
  | [] => []
  | c :: rest => if Nat.eqb c h then rest else c :: remove_first h rest
  end.

Lemma indexOf_lower cbs h : (-1 <= indexOf cbs h)%Z.
Proof.
  induction cbs as [|c rest IH]; simpl; [lia|].
  destruct (Nat.eqb c h); [lia|].
  destruct (Z.ltb_spec (indexOf rest h) 0); lia.
Qed.

(** [indexOf] followed by [splice] is [remove_first]; when the handler is
    absent the array is left alone, which [remove_first] also does. *)
Lemma indexOf_splice cbs h :
  (if (-1 <? indexOf cbs h)%Z then splice1 (Z.to_nat (indexOf cbs h)) cbs else cbs)
  = remove_first h cbs.
Proof.
  induction cbs as [|c rest IH]; simpl; [done|].
  destruct (Nat.eqb c h) eqn:E; simpl; [done|].
  pose proof (indexOf_lower rest h) as Hl.
  destruct (Z.ltb_spec (indexOf rest h) 0) as [Hneg|Hpos].
  - assert (indexOf rest h = -1)%Z as Hm by lia.
    rewrite Hm in IH. simpl in IH. simpl. by rewrite <- IH.
  - destruct (Z.ltb_spec (-1) (indexOf rest h)) as [_|]; [|lia].
    destruct (Z.ltb_spec (-1) (indexOf rest h + 1)) as [_|]; [|lia].
    rewrite <- IH. unfold splice1.
    replace (Z.to_nat (indexOf rest h + 1)) with (S (Z.to_nat (indexOf rest h))) by lia.
    done.
Qed.

Lemma remove_first_absent h cbs : h ∉ cbs -> remove_first h cbs = cbs.
Proof.
  induction cbs as [|c rest IH]; simpl; [done|].
  intros [Hne Hrest]%not_elem_of_cons.
  destruct (Nat.eqb_spec c h); [congruence|]. by rewrite IH.
Qed.

Lemma remove_first_split h l1 l2 :
  h ∉ l1 -> remove_first h (l1 ++ h :: l2) = l1 ++ l2.
Proof.
  induction l1 as [|c rest IH]; simpl.
  - intros _. by rewrite Nat.eqb_refl.
  - intros [Hne Hrest]%not_elem_of_cons.
    destruct (Nat.eqb_spec c h); [congruence|]. by rewrite IH.
Qed.

Lemma remove_first_count h cbs :
  count_occ Nat.eq_dec (remove_first h cbs) h = pred (count_occ Nat.eq_dec cbs h).
Proof.
  induction cbs as [|c rest IH]; simpl; [done|].
  destruct (Nat.eqb_spec c h) as [->|Hne].
  - by destruct (Nat.eq_dec h h).
  - simpl. destruct (Nat.eq_dec c h); [congruence|]. done.
Qed.

Lemma remove_first_others h h' cbs :
  h' <> h ->
  count_occ Nat.eq_dec (remove_first h cbs) h' = count_occ Nat.eq_dec cbs h'.
Proof.
  intros Hne. induction cbs as [|c rest IH]; simpl; [done|].
  destruct (Nat.eqb_spec c h) as [->|Hc].
  - by destruct (Nat.eq_dec h h').
  - simpl. destruct (Nat.eq_dec c h'); by rewrite IH.
Qed.

Section Subscriptions.
Context {R : Runtime}.

Lemma on_subscribers k h w k' :
  subscribers (snd (on k h w)) k' =
  if decide (k = k') then subscribers w k ++ [h] else subscribers w k'.
Proof.
  unfold on, modify, subscribers; simpl.
  destruct (listeners w !! k) as [cbs|] eqn:E; simpl.
  - rewrite E; simpl. rewrite lookup_insert. by destruct (decide (k = k')).
  - rewrite lookup_insert_eq; simpl. rewrite !lookup_insert.
    destruct (decide (k = k')) as [<-|]; [done|]. done.
Qed.

Lemma off_all_subscribers k w k' :
  subscribers (snd (off k None w)) k' =
  if decide (k = k') then [] else subscribers w k'.
Proof.
  unfold off, modify, subscribers; simpl. rewrite lookup_delete.
  by destruct (decide (k = k')).
Qed.

Lemma off_one_subscribers k h w k' :
  subscribers (snd (off k (Some h) w)) k' =
  if decide (k = k') then remove_first h (subscribers w k) else subscribers w k'.
Proof.
  unfold off, modify, subscribers; simpl.
  destruct (listeners w !! k) as [cbs|] eqn:E; simpl.
  - pose proof (indexOf_splice cbs h) as Hs.
    destruct (-1 <? indexOf cbs h)%Z; simpl.
    + rewrite lookup_insert. destruct (decide (k = k')); [by rewrite Hs|done].
    + destruct (decide (k = k')) as [<-|]; [|done]. by rewrite E, <- Hs.
  - destruct (decide (k = k')) as [<-|]; [|done]. by rewrite E.
Qed.

(** An [emit] calls the subscribers of its event kind in registration
    order, each with the payload, as long as none of them throws. *)
Lemma emit_calls k d w :
  (forall h, h ∈ subscribers w k -> handler_throws h d = None) ->
  emit k d w = (Normal tt,
                effects (EEmit k d :: map (fun h => ECall h d) (subscribers w k)) w).
Proof.
  intros Hq. rewrite emit_eq.
  by destruct (invoked_all _ _ Hq) as [-> ->].
Qed.
End Subscriptions.

Lemma calls_app tr es : calls (tr ++ es) = calls tr ++ calls es.
Proof. apply omap_app. Qed.

Lemma calls_ECall d cbs : calls (map (fun h => ECall h d) cbs) = map (fun h => (h, d)) cbs.
Proof. induction cbs as [|h rest IH]; simpl; [done|]. unfold calls in *. simpl. by rewrite IH. Qed.

Section Unsubscribe.
Context {R : Runtime}.

(** What an [emit] adds to the subscriber calls when nobody throws. *)
Lemma emit_calls_trace k d w :
  (forall h, h ∈ subscribers w k -> handler_throws h d = None) ->
  calls (trace (snd (emit k d w))) =
  calls (trace w) ++ map (fun h => (h, d)) (subscribers w k).
Proof.
  intros Hq. rewrite (emit_calls k d w Hq). simpl.
  rewrite calls_app. f_equal. unfold calls at 1. simpl.
  apply (calls_ECall d).
Qed.

(** C9. Unsubscribe semantics: [off(k)] without a handler leaves [k]
    with no subscriber (no call follows an [emit] of [k]) and every other
    kind as it was; [off(k, h)] takes out the first entry of [h] and
    nothing else: the entries before and after it stay, in order, every
    other handler keeps its number of entries, other kinds are untouched,
    and the next [emit] of [k] calls exactly the remaining entries. *)
Theorem off_semantics (w : World) (k : string) :
  (let w' := snd (off k None w) in
   fst (off k None w) = Normal tt /\
   subscribers w' k = [] /\
   (forall k', k' <> k -> subscribers w' k' = subscribers w k') /\
   (forall d, calls (trace (snd (emit k d w'))) = calls (trace w'))) /\
  (forall h,
     let w' := snd (off k (Some h) w) in
     fst (off k (Some h) w) = Normal tt /\
     (forall k', k' <> k -> subscribers w' k' = subscribers w k') /\
     (h ∉ subscribers w k -> subscribers w' k = subscribers w k) /\
     (forall l1 l2, subscribers w k = l1 ++ h :: l2 -> h ∉ l1 ->
                    subscribers w' k = l1 ++ l2) /\
     (forall h', h' <> h ->
                 count_occ Nat.eq_dec (subscribers w' k) h' =
                 count_occ Nat.eq_dec (subscribers w k) h') /\
     (forall d, (forall h', h' ∈ subscribers w' k -> handler_throws h' d = None) ->
                calls (trace (snd (emit k d w'))) =
                calls (trace w') ++ map (fun h' => (h', d)) (subscribers w' k))).
Proof.
  split.
  - cbn zeta. split; [done|]. split; [|split].
    + rewrite off_all_subscribers. by destruct (decide (k = k)).
    + intros k' Hne. rewrite off_all_subscribers.
      destruct (decide (k = k')); [congruence|done].
    + intros d. rewrite emit_calls_trace.
      * rewrite off_all_subscribers. destruct (decide (k = k)); [|done].
        simpl. by rewrite app_nil_r.
      * intros h. rewrite off_all_subscribers.
        destruct (decide (k = k)); [|done]. by intros ?%elem_of_nil.
  - intros h. cbn zeta. split; [done|].
    assert (Hk : subscribers (snd (off k (Some h) w)) k = remove_first h (subscribers w k)).
    { rewrite off_one_subscribers. by destruct (decide (k = k)). }
    split; [|split; [|split; [|split]]].
    + intros k' Hne. rewrite off_one_subscribers.
      destruct (decide (k = k')); [congruence|done].
    + intros Hnot. rewrite Hk. by apply remove_first_absent.
    + intros l1 l2 Hsplit Hnot. rewrite Hk, Hsplit. by apply remove_first_split.
    + intros h' Hne. rewrite Hk. by apply remove_first_others.
    + intros d Hq. by apply emit_calls_trace.
Qed.

(** C10. Duplicate registration: [on] never deduplicates.  Registering
    [h] twice appends two entries after those already there, so an [emit]
    calls the earlier subscribers and then [h] twice; one [off(k, h)]
    then takes out a single entry, leaving [h] one more entry than before
    the two registrations, and the next [emit] still calls it. *)
Theorem on_duplicates (w : World) (k : string) (h : Handler) :
  let w2 := snd (on k h (snd (on k h w))) in
  let w3 := snd (off k (Some h) w2) in
  subscribers w2 k = subscribers w k ++ [h; h] /\
  (forall d, (forall h', h' ∈ subscribers w k ++ [h] -> handler_throws h' d = None) ->
             calls (trace (snd (emit k d w2))) =
             calls (trace w2) ++ map (fun h' => (h', d)) (subscribers w k) ++ [(h, d); (h, d)]) /\
  count_occ Nat.eq_dec (subscribers w3 k) h =
    S (count_occ Nat.eq_dec (subscribers w k) h) /\
  (h ∉ subscribers w k -> subscribers w3 k = subscribers w k ++ [h]) /\
  (forall d, (forall h', h' ∈ subscribers w k ++ [h] -> handler_throws h' d = None) ->
             h ∉ subscribers w k ->
             calls (trace (snd (emit k d w3))) =
             calls (trace w3) ++ map (fun h' => (h', d)) (subscribers w k) ++ [(h, d)]).
Proof.
  cbn zeta.
  assert (H2 : subscribers (snd (on k h (snd (on k h w)))) k = subscribers w k ++ [h; h]).
  { rewrite !on_subscribers. destruct (decide (k = k)); [|done].
    by rewrite <- app_assoc. }
  assert (H3 : subscribers (snd (off k (Some h) (snd (on k h (snd (on k h w)))))) k
               = remove_first h (subscribers w k ++ [h; h])).
  { rewrite off_one_subscribers. destruct (decide (k = k)); [|done]. by rewrite H2. }
  assert (H3' : h ∉ subscribers w k ->
                remove_first h (subscribers w k ++ [h; h]) = subscribers w k ++ [h]).
  { intros Hnot. by apply (remove_first_split h (subscribers w k) [h]). }
  split; [exact H2|]. split; [|split; [|split]].
  - intros d Hq. rewrite emit_calls_trace.
    + rewrite H2, map_app. done.
    + rewrite H2. intros h' Hin. apply Hq.
      apply elem_of_app in Hin as [Hin|Hin]; apply elem_of_app; [by left|right].
      apply elem_of_cons in Hin as [->|Hin]; [apply elem_of_cons; by left|].
      done.
  - rewrite H3, remove_first_count, count_occ_app. simpl.
    destruct (Nat.eq_dec h h); [|done].
    rewrite Nat.add_succ_r. simpl. apply Nat.add_1_r.
  - intros Hnot. by rewrite H3, H3'.
  - intros d Hq Hnot. rewrite emit_calls_trace.
    + rewrite H3, H3', map_app by done. done.
    + rewrite H3, H3' by done. exact Hq.
Qed.
End Unsubscribe.

Lemma off_semantics_witness :
  let w := run (R:=browser) [On "status" 1; On "status" 2; On "status" 3] initial in
  subscribers (snd (off "status" None w)) "status" = [] /\
  subscribers (snd (off "status" (Some 2) w)) "status" = [1; 3] /\
  calls (trace (snd (emit (R:=browser) "status" JNull
                       (snd (off "status" (Some 2) w)))))
  = [(1, JNull); (3, JNull)].
Proof.
  cbn zeta.
  destruct (off_semantics (R:=browser)
              (run (R:=browser) [On "status" 1; On "status" 2; On "status" 3] initial)
              "status") as [Hall Hone].
  destruct Hall as (_ & Hnone & _).
  destruct (Hone 2) as (_ & _ & _ & Hsplit & _ & Hcalls).
  assert (Hleft : subscribers
            (snd (off "status" (Some 2)
                    (run (R:=browser) [On "status" 1; On "status" 2; On "status" 3] initial)))
            "status" = [1; 3]).
  { apply (Hsplit [1] [3]); [reflexivity|].
    intros Hin. apply list_elem_of_singleton in Hin. discriminate Hin. }
  split; [exact Hnone|]. split; [exact Hleft|].
  assert (Hq : forall h', h' ∈ [1; 3] -> handler_throws (Runtime:=browser) h' JNull = None).
  { intros h' Hin.
    apply elem_of_cons in Hin as [->|Hin]; [reflexivity|].
    apply list_elem_of_singleton in Hin as ->. reflexivity. }
  rewrite <- Hleft in Hq.
  pose proof (Hcalls JNull Hq) as Hc. rewrite Hleft in Hc. exact Hc.
Defined.

Lemma on_duplicates_witness :
  let w2 := snd (on "status" 7 (snd (on "status" 7 initial))) in
  let w3 := snd (off "status" (Some 7) w2) in
  subscribers w2 "status" = [7; 7] /\
  calls (trace (snd (emit (R:=browser) "status" JNull w2))) = [(7, JNull); (7, JNull)] /\
  subscribers w3 "status" = [7] /\
  calls (trace (snd (emit (R:=browser) "status" JNull w3))) = [(7, JNull)].
Proof.
  cbn zeta.
  destruct (on_duplicates (R:=browser) initial "status" 7)
    as (Htwo & Hcalls2 & _ & Hone & Hcalls1).
  assert (Hq : forall h', h' ∈ subscribers initial "status" ++ [7] ->
                          handler_throws (Runtime:=browser) h' JNull = None).
  { intros h' Hin. apply list_elem_of_singleton in Hin as ->. reflexivity. }
  assert (Hfresh : 7 ∉ subscribers initial "status").
  { intros Hin. by apply elem_of_nil in Hin. }
  split; [exact Htwo|]. split; [exact (Hcalls2 JNull Hq)|].
  split; [exact (Hone Hfresh)|]. exact (Hcalls1 JNull Hq Hfresh).
Defined.

(** ** Sending *)

Local Arguments Nat.leb : simpl never.
Local Arguments Z.eqb : simpl never.

Ltac unfold_m :=
  unfold mbind, M_bind, bind, ret, throw, try_catch, modify, gets, log, void, effect;
  simpl.

Lemma writes_app tr es : writes (tr ++ es) = writes tr ++ writes es.
Proof. apply omap_app. Qed.
Lemma created_app tr es : created (tr ++ es) = created tr ++ created es.
Proof. apply omap_app. Qed.
Lemma scheduled_app tr es : scheduled (tr ++ es) = scheduled tr ++ scheduled es.
Proof. apply omap_app. Qed.
Lemma closes_app tr es : closes (tr ++ es) = closes tr ++ closes es.
Proof. apply omap_app. Qed.
Lemma emitted_app tr es : emitted (tr ++ es) = emitted tr ++ emitted es.
Proof. apply omap_app. Qed.

Lemma is_open_socket w :
  is_open w = true -> exists s, socket w = Some s /\ sockets w !! s = Some OPEN.
Proof.
  unfold is_open. destruct (socket w) as [s|]; [|done].
  intros Hb%bool_decide_eq_true. eauto.
Qed.

(** What [JSON.stringify] writes for a number: [null] for [NaN] and the
    infinities; for an integer of small magnitude, its decimal digits
    (checked by running [Number::toString] on each of them). *)
Lemma JSON_number_null v :
  v = S754_nan \/ (exists sign, v = S754_infinity sign) -> JSON_number v = "null"%string.
Proof. by intros [->|[sign ->]]. Qed.

Lemma JSON_number_small z :
  (-1024 <= z < 4096)%Z -> JSON_number (Number.of_Z z) = pretty z.
Proof.
  intros Hz.
  assert (Hall : forallb (fun z => String.eqb (JSON_number (Number.of_Z z)) (pretty z))
                   (seqZ (-1024) 5120) = true) by (vm_compute; reflexivity).
  rewrite forallb_forall in Hall. apply String.eqb_eq, Hall.
  apply list_elem_of_In, elem_of_seqZ. lia.
Qed.

Section Sending.
Context {R : Runtime}.

Lemma isConnected_eq w : isConnected w = (Normal (is_open w), w).
Proof. done. Qed.

Lemma sendCommand_closed c sp now w :
  is_open w = false ->
  sendCommand c sp now w =
  (Normal false, effect (ELog "Cannot send command: Car WebSocket not connected") w).
Proof. intros Hc. unfold sendCommand, isConnected. unfold_m. by rewrite Hc. Qed.

Lemma sendCommand_open c sp now w s :
  socket w = Some s -> sockets w !! s = Some OPEN ->
  sendCommand c sp now w =
  (Normal true,
   effects [ESend s (JSON_stringify
                       {| command := c; speed := default (Number.of_Z 200) sp;
                          timestamp := now |});
            ELog "Car command sent"] w).
Proof.
  intros Hs Hst.
  assert (Ho : is_open w = true).
  { unfold is_open. rewrite Hs. by apply bool_decide_eq_true_2. }
  unfold sendCommand, isConnected. unfold_m. rewrite Ho. simpl. rewrite Hs.
  unfold ws_send, effect. rewrite Hst. simpl. by rewrite effects_app.
Qed.

(** C3. Send gating: when the channel is not Open, [sendCommand] returns
    [false] and the world only gains a log line, so nothing is written to
    the wire; when it is Open, it returns [true] and writes once, to the
    current socket, the JSON text of [{command, speed, timestamp}] whose
    timestamp is the clock reading of this call. *)
Theorem send_gating (c : Command.t) (sp : option spec_float) (now : Z) (w : World) :
  (is_open w = false ->
     fst (sendCommand c sp now w) = Normal false /\
     snd (sendCommand c sp now w) =
       effect (ELog "Cannot send command: Car WebSocket not connected") w /\
     writes (trace (snd (sendCommand c sp now w))) = writes (trace w)) /\
  (is_open w = true ->
     exists s, socket w = Some s /\
       fst (sendCommand c sp now w) = Normal true /\
       writes (trace (snd (sendCommand c sp now w))) =
         writes (trace w) ++
         [(s, JSON_stringify
                {| command := c; speed := default (Number.of_Z 200) sp;
                   timestamp := now |})]).
Proof.
  split.
  - intros Hc. rewrite sendCommand_closed by done. simpl.
    split; [done|]. split; [done|]. rewrite writes_app. simpl. by rewrite app_nil_r.
  - intros Ho. destruct (is_open_socket w Ho) as (s & Hs & Hst).
    exists s. rewrite (sendCommand_open c sp now w s Hs Hst). simpl.
    split; [done|]. split; [done|]. by rewrite writes_app.
Qed.

(** C8, as the code has it. The channel neither clamps nor checks the
    speed: the speed field of the message written is what [JSON.stringify]
    makes of the caller's argument, 200 when it is omitted.  That is [null]
    for [NaN] and the infinities, and the integer itself for every integer
    from -1024 to 4095, inside 0..255 or not; so for these the field is an
    integer of 0..255 exactly when the argument is. *)
Theorem send_speed_passthrough (c : Command.t) (sp : option spec_float) (now : Z)
    (w : World) :
  is_open w = true ->
  let arg := default (Number.of_Z 200) sp in
  exists s,
    socket w = Some s /\
    writes (trace (snd (sendCommand c sp now w))) =
      writes (trace w) ++
      [(s, "{" ++ quoted "command" ++ ":" ++ quoted (Command.name c) ++
           "," ++ quoted "speed" ++ ":" ++ JSON_number arg ++
           "," ++ quoted "timestamp" ++ ":" ++ JSON_number (Number.of_Z now) ++
           "}")%string] /\
    (arg = S754_nan \/ (exists sign, arg = S754_infinity sign) ->
     JSON_number arg = "null"%string) /\
    (forall z, (-1024 <= z < 4096)%Z -> arg = Number.of_Z z ->
       JSON_number arg = pretty z /\
       ((exists b, (0 <= b <= 255)%Z /\ JSON_number arg = pretty b) <->
        (0 <= z <= 255)%Z)).
Proof.
  intros Ho arg. destruct (is_open_socket w Ho) as (s & Hs & Hst).
  exists s. split; [exact Hs|].
  rewrite (sendCommand_open c sp now w s Hs Hst). cbn [snd].
  split; [|split].
  - unfold effects. cbn [trace]. by rewrite writes_app.
  - apply JSON_number_null.
  - intros z Hz ->. pose proof (JSON_number_small z Hz) as Hw.
    split; [exact Hw|]. rewrite Hw. split.
    + intros (b & Hb & Heq). apply (inj pretty) in Heq. by subst b.
    + intros Hr. by exists z.
Qed.

Lemma connect_open url accepted w :
  is_open w = true ->
  connect url accepted w =
  (Normal (socket w), effect (ELog "Car already connected to WebSocket") w).
Proof. intros Ho. unfold connect, isConnected. unfold_m. by rewrite Ho. Qed.

(** C7. Idempotent connect: while the socket is Open, [connect] returns
    the current socket and changes nothing but the log: no socket is
    closed and none is constructed. *)
Theorem connect_idempotent (url : string) (accepted : bool) (w : World) :
  is_open w = true ->
  connect url accepted w =
    (Normal (socket w), effect (ELog "Car already connected to WebSocket") w) /\
  sockets (snd (connect url accepted w)) = sockets w /\
  created (trace (snd (connect url accepted w))) = created (trace w) /\
  closes (trace (snd (connect url accepted w))) = closes (trace w).
Proof.
  intros Ho. rewrite (connect_open url accepted w Ho). simpl.
  rewrite created_app, closes_app. simpl. by rewrite !app_nil_r.
Qed.
End Sending.

(** A channel that has connected and opened its first socket. *)
Definition opened : World :=
  run (R:=browser) [Connect "http://car.local:3000" true; WsOpen 0] initial.

Lemma send_gating_witness :
  (fst (sendCommand (R:=browser) Command.stop None 7 initial) = Normal false /\
   writes (trace (snd (sendCommand (R:=browser) Command.stop None 7 initial))) = []) /\
  (fst (sendCommand (R:=browser) Command.stop None 7 opened) = Normal true /\
   writes (trace (snd (sendCommand (R:=browser) Command.stop None 7 opened))) =
     [(0, JSON_stringify {| command := Command.stop; speed := Number.of_Z 200;
                            timestamp := 7 |})]).
Proof.
  split.
  - destruct (send_gating (R:=browser) Command.stop None 7 initial) as [Hclosed _].
    destruct (Hclosed eq_refl) as (Hret & _ & Hw). split; [exact Hret|exact Hw].
  - destruct (send_gating (R:=browser) Command.stop None 7 opened) as [_ Hopen].
    destruct (Hopen eq_refl) as (s & Hs & Hret & Hw).
    split; [exact Hret|].
    assert (s = 0) as -> by (vm_compute in Hs; congruence).
    exact Hw.
Defined.

(** C8, as stated, fails: an Open channel writes the speed 300 it is
    given, and what it writes is the decimal of no integer of 0..255. *)
Lemma send_speed_unbounded :
  let m := {| command := Command.forward; speed := Number.of_Z 300;
              timestamp := 1700000000000 |} in
  is_open opened = true /\
  writes (trace (snd (sendCommand (R:=browser) Command.forward (Some (Number.of_Z 300))
                        1700000000000 opened))) =
    [(0, JSON_stringify m)] /\
  JSON_stringify m =
    ("{" ++ quoted "command" ++ ":" ++ quoted "forward" ++ "," ++
     quoted "speed" ++ ":300," ++ quoted "timestamp" ++ ":1700000000000}")%string /\
  (forall b : Z, JSON_number (speed m) = pretty b -> ~ (0 <= b <= 255)%Z).
Proof.
  cbn zeta. split; [reflexivity|]. split; [reflexivity|]. split; [vm_compute; reflexivity|].
  intros b Hb. cbn [speed] in Hb. rewrite (JSON_number_small 300) in Hb by lia.
  apply (inj pretty) in Hb. lia.
Qed.

Lemma send_speed_passthrough_witness :
  (exists s,
     writes (trace (snd (sendCommand (R:=browser) Command.left (Some (Number.of_Z 255)) 9
                           opened))) =
       writes (trace opened) ++
       [(s, "{" ++ quoted "command" ++ ":" ++ quoted "left" ++ "," ++
            quoted "speed" ++ ":255," ++ quoted "timestamp" ++ ":9}")%string]) /\
  (exists s,
     writes (trace (snd (sendCommand (R:=browser) Command.left (Some S754_nan) 9
                           opened))) =
       writes (trace opened) ++
       [(s, "{" ++ quoted "command" ++ ":" ++ quoted "left" ++ "," ++
            quoted "speed" ++ ":null," ++ quoted "timestamp" ++ ":9}")%string]).
Proof.
  split.
  - destruct (send_speed_passthrough (R:=browser) Command.left (Some (Number.of_Z 255)) 9
                opened eq_refl) as (s & _ & Hw & _ & _).
    exists s. exact Hw.
  - destruct (send_speed_passthrough (R:=browser) Command.left (Some S754_nan) 9
                opened eq_refl) as (s & _ & Hw & _ & _).
    exists s. exact Hw.
Defined.

(** The creation counter of the specification's test: one socket after the
    first [connect], still one after a second [connect] while Open. *)
Lemma connect_idempotent_witness :
  length (created (trace opened)) = 1 /\
  length (created (trace (snd (connect (R:=browser) "https://other.local:8443" true opened)))) = 1 /\
  closes (trace (snd (connect (R:=browser) "https://other.local:8443" true opened))) = [].
Proof.
  destruct (connect_idempotent (R:=browser) "https://other.local:8443" true opened eq_refl)
    as (_ & _ & Hcreated & Hcloses).
  split; [reflexivity|]. split.
  - rewrite Hcreated. reflexivity.
  - rewrite Hcloses. reflexivity.
Defined.

(** ** URL derivation *)

Lemma prefix_nil s : String.prefix "" s = true.
Proof. by destruct s. Qed.

Lemma startsWith_append pre s : startsWith (pre ++ s) pre = true.
Proof.
  unfold startsWith. induction pre as [|c pre IH]; simpl.
  - apply prefix_nil.
  - destruct (ascii_dec c c); [exact IH|done].
Qed.

Lemma replace_prefix pat rep s :
  replace pat rep (pat ++ s) = (rep ++ s)%string.
Proof.
  assert (Hd : forall p, drop_chars (String.length p) (p ++ s) = s).
  { induction p as [|c p IH]; [done|exact IH]. }
  pose proof (startsWith_append pat s) as Hp. unfold startsWith in Hp.
  destruct pat as [|c pat]; simpl.
  - destruct s; simpl; done.
  - simpl in Hp. rewrite Hp. f_equal. apply (Hd pat).
Qed.

Lemma append_cons x (a b : string) : (String x a ++ b)%string = String x (a ++ b).
Proof. reflexivity. Qed.

Lemma append_assoc (a b c : string) : ((a ++ b) ++ c = a ++ (b ++ c))%string.
Proof. induction a as [|x a IH]; [done|]. by rewrite !append_cons, IH. Qed.

Section UrlDerivation.
Context {R : Runtime}.

(** When [new URL] succeeds, only [https:] maps to [wss:]; the path of the
    input is dropped. *)
Lemma convert_parsed s u :
  URL_new s = Some u ->
  convertToWebSocketUrl s =
  ((if String.eqb (protocol u) "https:" then "wss:" else "ws:")
     ++ "//" ++ host u ++ "/ws")%string.
Proof. intros E. unfold convertToWebSocketUrl. by rewrite E. Qed.

(** The [catch] branch, for each of the documented forms. *)
Lemma convert_unparsed_http hp :
  URL_new ("http://" ++ hp)%string = None ->
  convertToWebSocketUrl ("http://" ++ hp) = ("ws://" ++ hp ++ "/ws")%string.
Proof.
  intros E. unfold convertToWebSocketUrl. rewrite E.
  rewrite (startsWith_append "http://" hp), (replace_prefix "http://" "ws://" hp).
  apply append_assoc.
Qed.

Lemma convert_unparsed_https hp :
  URL_new ("https://" ++ hp)%string = None ->
  convertToWebSocketUrl ("https://" ++ hp) = ("wss://" ++ hp ++ "/ws")%string.
Proof.
  intros E. unfold convertToWebSocketUrl. rewrite E.
  change (startsWith ("https://" ++ hp) "http://") with false.
  rewrite (startsWith_append "https://" hp), (replace_prefix "https://" "wss://" hp).
  apply append_assoc.
Qed.

Lemma convert_unparsed_ws hp :
  URL_new ("ws://" ++ hp)%string = None ->
  convertToWebSocketUrl ("ws://" ++ hp) =
  if endsWith ("ws://" ++ hp) "/ws" then ("ws://" ++ hp)%string
  else ("ws://" ++ hp ++ "/ws")%string.
Proof.
  intros E. unfold convertToWebSocketUrl. rewrite E.
  change (startsWith ("ws://" ++ hp) "http://") with false.
  change (startsWith ("ws://" ++ hp) "https://") with false.
  rewrite (startsWith_append "ws://" hp). cbv beta iota. simpl orb. cbv iota.
  destruct (endsWith ("ws://" ++ hp) "/ws"); [done|apply append_assoc].
Qed.

Lemma convert_unparsed_wss hp :
  URL_new ("wss://" ++ hp)%string = None ->
  convertToWebSocketUrl ("wss://" ++ hp) =
  if endsWith ("wss://" ++ hp) "/ws" then ("wss://" ++ hp)%string
  else ("wss://" ++ hp ++ "/ws")%string.
Proof.
  intros E. unfold convertToWebSocketUrl. rewrite E.
  change (startsWith ("wss://" ++ hp) "http://") with false.
  change (startsWith ("wss://" ++ hp) "https://") with false.
  change (startsWith ("wss://" ++ hp) "ws://") with false.
  rewrite (startsWith_append "wss://" hp). cbv beta iota. simpl orb. cbv iota.
  destruct (endsWith ("wss://" ++ hp) "/ws"); [done|apply append_assoc].
Qed.

Lemma convert_unparsed_bare s :
  URL_new s = None ->
  startsWith s "http://" = false -> startsWith s "https://" = false ->
  startsWith s "ws://" = false -> startsWith s "wss://" = false ->
  convertToWebSocketUrl s = ("ws://" ++ s ++ "/ws")%string.
Proof.
  intros E H1 H2 H3 H4. unfold convertToWebSocketUrl.
  by rewrite E, H1, H2, H3, H4.
Qed.

(** C2, at the input where the code departs from it. Whenever [new URL]
    parses [wss://hp] (as the URL Standard does), the derived URL is
    [ws://hp/ws]: the secure scheme is lost, because the [try] branch maps
    every protocol but [https:] to [ws:].  The [catch] branch keeps
    [wss://] ([convert_unparsed_wss]). *)
Theorem convert_wss_downgraded (hp : string) :
  URL_new ("wss://" ++ hp)%string = Some {| protocol := "wss:"; host := hp |} ->
  convertToWebSocketUrl ("wss://" ++ hp) = ("ws://" ++ hp ++ "/ws")%string /\
  convertToWebSocketUrl ("wss://" ++ hp) <> ("wss://" ++ hp ++ "/ws")%string.
Proof.
  intros E. rewrite (convert_parsed _ _ E). simpl.
  split; [reflexivity|]. intros Heq. discriminate Heq.
Qed.
End UrlDerivation.

Lemma convert_wss_downgraded_witness :
  URL_standard "wss://car.local:8443" =
    Some {| protocol := "wss:"; host := "car.local:8443" |} /\
  convertToWebSocketUrl (R:=browser) "wss://car.local:8443" = "ws://car.local:8443/ws"%string.
Proof.
  split; [reflexivity|].
  exact (proj1 (convert_wss_downgraded (R:=browser) "car.local:8443" eq_refl)).
Defined.

(** The documented forms, in both runtimes. *)
Example convert_browser_http :
  convertToWebSocketUrl (R:=browser) "http://192.168.1.5:3000" = "ws://192.168.1.5:3000/ws"%string.
Proof. reflexivity. Qed.
Example convert_browser_https :
  convertToWebSocketUrl (R:=browser) "https://car.local:8443" = "wss://car.local:8443/ws"%string.
Proof. reflexivity. Qed.
Example convert_browser_ws :
  convertToWebSocketUrl (R:=browser) "ws://192.168.1.5:3000" = "ws://192.168.1.5:3000/ws"%string.
Proof. reflexivity. Qed.
Example convert_browser_suffixed :
  convertToWebSocketUrl (R:=browser) "ws://192.168.1.5:3000/ws" = "ws://192.168.1.5:3000/ws"%string.
Proof. reflexivity. Qed.
Example convert_browser_bare :
  convertToWebSocketUrl (R:=browser) "192.168.1.5:3000" = "ws://192.168.1.5:3000/ws"%string.
Proof. reflexivity. Qed.
Example convert_legacy_wss :
  convertToWebSocketUrl (R:=legacy) "wss://car.local:8443" = "wss://car.local:8443/ws"%string.
Proof. reflexivity. Qed.
(** Two more inputs on which the derived URL is not the documented one: a
    bare name with a port parses as a URL whose scheme is the name, and the
    [catch] branch checks the [/ws] suffix of [ws://] and [wss://] inputs
    only. *)
Example convert_browser_bare_name :
  convertToWebSocketUrl (R:=browser) "localhost:3000" = "ws:///ws"%string.
Proof. reflexivity. Qed.
Example convert_legacy_http_suffixed :
  convertToWebSocketUrl (R:=legacy) "http://car.local:3000/ws" = "ws://car.local:3000/ws/ws"%string.
Proof. reflexivity. Qed.
Example convert_legacy_suffixed :
  convertToWebSocketUrl (R:=legacy) "wss://car.local:8443/ws" = "wss://car.local:8443/ws"%string.
Proof. reflexivity. Qed.

(** ** Inbound dispatch *)

Definition is_log (e : Effect) : bool :=
  match e with ELog _ => true | _ => false end.

Lemma logs_silent (P : Effect -> option (string * JsVal)) es :
  forallb is_log es = true -> (forall m, P (ELog m) = None) -> omap P es = [].
Proof.
  intros Hall HP. induction es as [|e es IH]; [done|].
  simpl in Hall. apply andb_true_iff in Hall as [He Hes].
  destruct e; try discriminate He. simpl. rewrite HP. by apply IH.
Qed.

Section Dispatch.
Context {R : Runtime}.

(** What one [emit] leaves in the trace. *)
Definition emit_effects (w : World) (event : string) (d : JsVal) : list Effect :=
  EEmit event d :: map (fun h => ECall h d) (invoked (subscribers w event) d).

(** [w'] is [w] after exactly one [emit] of [event] with payload [d],
    which called the subscribers of [event] in order, and nothing else
    but log lines. *)
Definition dispatched (w w' : World) (event : string) (d : JsVal) : Prop :=
  exists before after,
    forallb is_log before = true /\ forallb is_log after = true /\
    w' = effects (before ++ emit_effects w event d ++ after) w.

(** [w'] is [w] with log lines only. *)
Definition dropped (w w' : World) : Prop :=
  exists logs, forallb is_log logs = true /\ w' = effects logs w.

Lemma caught_emit event d before w :
  forallb is_log before = true ->
  try_catch (emit event d)
            (fun _ => log "Failed to parse car WebSocket message")
            (effects before w) =
  (Normal tt,
   effects (before ++ emit_effects w event d ++
            match thrown (subscribers w event) d with
            | Some _ => [ELog "Failed to parse car WebSocket message"]
            | None => []
            end) w).
Proof.
  intros _. unfold try_catch. rewrite emit_eq.
  change (subscribers (effects before w) event) with (subscribers w event).
  unfold emit_effects.
  destruct (thrown (subscribers w event) d); simpl; unfold log, modify, effect;
    rewrite ?effects_app; rewrite ?app_nil_r, <- ?app_assoc; done.
Qed.
End Dispatch.

Section DispatchCases.
Context {R : Runtime}.

Lemma prop_object msg k v :
  prop msg k = JStr v -> k <> "message"%string -> exists fields, msg = JObj fields.
Proof.
  destruct msg; simpl; try discriminate; eauto.
  intros Hp Hk. destruct (String.eqb_spec k "message"); [done|discriminate].
Qed.

Lemma caught_emit_dispatched event d before w :
  forallb is_log before = true ->
  dispatched w
    (snd (try_catch (emit event d)
            (fun _ => log "Failed to parse car WebSocket message")
            (effects before w))) event d /\
  fst (try_catch (emit event d)
         (fun _ => log "Failed to parse car WebSocket message")
         (effects before w)) = Normal tt.
Proof.
  intros Hb. rewrite caught_emit by done. simpl. split; [|done].
  exists before. eexists. split; [done|]. split; [|reflexivity].
  by destruct (thrown (subscribers w event) d).
Qed.

Ltac start msg Hparse Htype :=
  destruct (prop_object msg "type" _ Htype) as [fields ->]; [discriminate|];
  simpl in Htype;
  unfold onmessage, mbind, M_bind, bind at 1, ret at 1; rewrite Hparse;
  unfold bind at 1, ret at 1; simpl member; unfold bind, ret; simpl;
  rewrite Htype; simpl.

Ltac finish w ev d :=
  let Hd := fresh in
  pose proof (caught_emit_dispatched ev d [] w eq_refl) as Hd;
  rewrite effects_nil in Hd; exact Hd.

Lemma onmessage_status data msg w :
  JSON_parse data = Some msg -> prop msg "type" = JStr "car_status" ->
  dispatched w (snd (onmessage data w)) "status" (prop msg "data") /\
  fst (onmessage data w) = Normal tt.
Proof.
  intros Hparse Htype. start msg Hparse Htype.
  finish w "status" (assoc "data" fields).
Qed.

Lemma onmessage_ack data msg w :
  JSON_parse data = Some msg -> prop msg "type" = JStr "car_ack" ->
  dispatched w (snd (onmessage data w)) "acknowledgment"
    (JObj [("command", prop msg "command"); ("status", prop msg "status")]) /\
  fst (onmessage data w) = Normal tt.
Proof.
  intros Hparse Htype. start msg Hparse Htype.
  finish w "acknowledgment"
    (JObj [("command", assoc "command" fields); ("status", assoc "status" fields)]).
Qed.

Lemma onmessage_connected data msg w :
  JSON_parse data = Some msg -> prop msg "type" = JStr "car_connected" ->
  dispatched w (snd (onmessage data w)) "device_connected"
    (JObj [("device", prop msg "device"); ("status", prop msg "status")]) /\
  fst (onmessage data w) = Normal tt.
Proof.
  intros Hparse Htype. start msg Hparse Htype.
  finish w "device_connected"
    (JObj [("device", assoc "device" fields); ("status", assoc "status" fields)]).
Qed.

Lemma onmessage_disconnected data msg w :
  JSON_parse data = Some msg -> prop msg "type" = JStr "car_disconnected" ->
  dispatched w (snd (onmessage data w)) "device_disconnected" (JBool true) /\
  fst (onmessage data w) = Normal tt.
Proof.
  intros Hparse Htype. start msg Hparse Htype.
  finish w "device_disconnected" (JBool true).
Qed.

Lemma onmessage_error data msg w :
  JSON_parse data = Some msg -> prop msg "type" = JStr "error" ->
  dispatched w (snd (onmessage data w)) "error" (prop msg "message") /\
  fst (onmessage data w) = Normal tt.
Proof.
  intros Hparse Htype. start msg Hparse Htype.
  unfold log, modify, effect; simpl.
  exact (caught_emit_dispatched "error" (assoc "message" fields)
           [ELog "Car control error"] w eq_refl).
Qed.

(** The tags the channel knows. *)
Definition known_tags : list string :=
  ["car_status"; "car_ack"; "car_connected"; "car_disconnected"; "error"]%string.

Lemma onmessage_unknown data msg w :
  JSON_parse data = Some msg ->
  (forall tag, tag ∈ known_tags -> prop msg "type" <> JStr tag) ->
  dropped w (snd (onmessage data w)) /\ fst (onmessage data w) = Normal tt.
Proof.
  intros Hparse Hother.
  assert (Hne : forall tag, tag ∈ known_tags -> strict_eq_str (prop msg "type") tag = false).
  { intros tag Hin. specialize (Hother tag Hin).
    unfold strict_eq_str. destruct (prop msg "type"); try done.
    destruct (String.eqb_spec s tag); [congruence|done]. }
  unfold onmessage, mbind, M_bind, bind at 1, ret at 1; rewrite Hparse.
  unfold bind at 1, ret at 1.
  destruct msg; simpl member; unfold bind, ret, throw, try_catch; simpl.
  all: try (split; [|done]; eexists; split; [|reflexivity]; done).
  simpl in Hne. rewrite !Hne by (unfold known_tags; set_solver).
  simpl. split; [|done]. eexists; split; [|reflexivity]; done.
Qed.

Lemma onmessage_malformed data w :
  JSON_parse data = None ->
  dropped w (snd (onmessage data w)) /\ fst (onmessage data w) = Normal tt.
Proof.
  intros Hparse.
  unfold onmessage, mbind, M_bind, bind at 1, throw at 1; rewrite Hparse.
  unfold try_catch, bind, throw; simpl.
  split; [|done]. eexists; split; [|reflexivity]; done.
Qed.
End DispatchCases.

Lemma dispatched_emitted {R : Runtime} w w' event d :
  dispatched w w' event d -> emitted (trace w') = emitted (trace w) ++ [(event, d)].
Proof.
  intros (before & after & Hb & Ha & ->). simpl.
  rewrite !emitted_app. f_equal.
  unfold emitted at 1. rewrite (logs_silent _ before Hb) by done.
  unfold emit_effects, emitted. simpl. f_equal.
  rewrite omap_app, (logs_silent _ after Ha) by done.
  rewrite app_nil_r. induction (invoked _ _); [done|]. done.
Qed.

Lemma dispatched_calls {R : Runtime} w w' event d :
  dispatched w w' event d ->
  calls (trace w') =
  calls (trace w) ++ map (fun h => (h, d)) (invoked (subscribers w event) d).
Proof.
  intros (before & after & Hb & Ha & ->). simpl.
  rewrite !calls_app. f_equal.
  unfold calls at 1.
  assert (Hl : forall es, forallb is_log es = true ->
             omap (fun e => match e with ECall h d => Some (h, d) | _ => None end) es = []).
  { intros es Hes. induction es as [|e es IH]; [done|].
    simpl in Hes. apply andb_true_iff in Hes as [He Hes].
    destruct e; try discriminate He. simpl. by apply IH. }
  rewrite (Hl before Hb). unfold emit_effects. simpl.
  rewrite calls_app. unfold calls at 2. rewrite (Hl after Ha), app_nil_r.
  apply calls_ECall.
Qed.

Lemma dropped_silent w w' :
  dropped w w' ->
  emitted (trace w') = emitted (trace w) /\ calls (trace w') = calls (trace w).
Proof.
  intros (logs & Hl & ->). simpl. rewrite emitted_app, calls_app.
  assert (He : emitted logs = []) by (by apply logs_silent).
  assert (Hc : calls logs = []).
  { clear He. induction logs as [|e es IH]; [done|].
    simpl in Hl. apply andb_true_iff in Hl as [He Hes].
    destruct e; try discriminate He. by apply IH. }
  by rewrite He, Hc, !app_nil_r.
Qed.

Section DispatchTheorem.
Context {R : Runtime}.

Lemma known_tag_dec (v : JsVal) :
  (exists tag, tag ∈ known_tags /\ v = JStr tag) \/
  (forall tag, tag ∈ known_tags -> v <> JStr tag).
Proof.
  destruct v as [| | | |s| | |]; try (right; intros tag _; discriminate).
  destruct (decide (s ∈ known_tags)) as [Hin|Hout].
  - left. eauto.
  - right. intros tag Hin [= ->]. done.
Qed.

(** C5. Inbound dispatch: [onmessage] never throws. A frame whose JSON
    carries a known [type] leads to exactly one [emit], of the mapped
    event with the mapped payload, calling that event's subscribers in
    order; apart from log lines nothing else happens.  A frame with any
    other tag, and a frame that is not JSON, leave log lines only: no
    [emit], no subscriber called. *)
Theorem message_dispatch (data : string) (w : World) :
  fst (onmessage data w) = Normal tt /\
  (JSON_parse data = None -> dropped w (snd (onmessage data w))) /\
  (forall msg, JSON_parse data = Some msg ->
     (prop msg "type" = JStr "car_status" ->
        dispatched w (snd (onmessage data w)) "status" (prop msg "data")) /\
     (prop msg "type" = JStr "car_ack" ->
        dispatched w (snd (onmessage data w)) "acknowledgment"
          (JObj [("command", prop msg "command"); ("status", prop msg "status")])) /\
     (prop msg "type" = JStr "car_connected" ->
        dispatched w (snd (onmessage data w)) "device_connected"
          (JObj [("device", prop msg "device"); ("status", prop msg "status")])) /\
     (prop msg "type" = JStr "car_disconnected" ->
        dispatched w (snd (onmessage data w)) "device_disconnected" (JBool true)) /\
     (prop msg "type" = JStr "error" ->
        dispatched w (snd (onmessage data w)) "error" (prop msg "message")) /\
     ((forall tag, tag ∈ known_tags -> prop msg "type" <> JStr tag) ->
        dropped w (snd (onmessage data w)))).
Proof.
  split; [|split].
  - destruct (JSON_parse data) as [msg|] eqn:Hparse.
    + destruct (known_tag_dec (prop msg "type")) as [(tag & Hin & Htag)|Hother].
      * unfold known_tags in Hin.
        repeat (apply elem_of_cons in Hin as [->|Hin]);
          [ apply (onmessage_status data msg w Hparse Htag)
          | apply (onmessage_ack data msg w Hparse Htag)
          | apply (onmessage_connected data msg w Hparse Htag)
          | apply (onmessage_disconnected data msg w Hparse Htag)
          | apply (onmessage_error data msg w Hparse Htag)
          | by apply elem_of_nil in Hin ].
      * apply (onmessage_unknown data msg w Hparse Hother).
    + apply (onmessage_malformed data w Hparse).
  - intros Hparse. apply (onmessage_malformed data w Hparse).
  - intros msg Hparse. repeat split; intros Htag.
    + apply (onmessage_status data msg w Hparse Htag).
    + apply (onmessage_ack data msg w Hparse Htag).
    + apply (onmessage_connected data msg w Hparse Htag).
    + apply (onmessage_disconnected data msg w Hparse Htag).
    + apply (onmessage_error data msg w Hparse Htag).
    + apply (onmessage_unknown data msg w Hparse Htag).
Qed.
End DispatchTheorem.

Lemma message_dispatch_witness :
  let w := snd (on "acknowledgment" 1 opened) in
  emitted (trace (snd (onmessage (R:=browser) frame_ack w))) =
    emitted (trace w) ++
    [("acknowledgment"%string, JObj [("command"%string, JStr "stop"); ("status"%string, JStr "ok")])] /\
  calls (trace (snd (onmessage (R:=browser) frame_ack w))) =
    [(1, JObj [("command"%string, JStr "stop"); ("status"%string, JStr "ok")])] /\
  emitted (trace (snd (onmessage (R:=browser) frame_telemetry w))) = emitted (trace w) /\
  emitted (trace (snd (onmessage (R:=browser) "{not json" w))) = emitted (trace w).
Proof.
  cbn zeta.
  destruct (message_dispatch (R:=browser) frame_ack (snd (on "acknowledgment" 1 opened)))
    as (_ & _ & Hack).
  destruct (Hack _ eq_refl) as (_ & Hack' & _).
  specialize (Hack' eq_refl).
  destruct (message_dispatch (R:=browser) frame_telemetry (snd (on "acknowledgment" 1 opened)))
    as (_ & _ & Htel).
  destruct (Htel _ eq_refl) as (_ & _ & _ & _ & _ & Htel').
  assert (Hother : forall tag, tag ∈ known_tags ->
                     prop (JObj [("type"%string, JStr "telemetry")]) "type" <> JStr tag).
  { intros tag Hin. unfold known_tags in Hin.
    repeat (apply elem_of_cons in Hin as [->|Hin]); try discriminate.
    by apply elem_of_nil in Hin. }
  specialize (Htel' Hother).
  destruct (message_dispatch (R:=browser) "{not json" (snd (on "acknowledgment" 1 opened)))
    as (_ & Hbad & _).
  specialize (Hbad eq_refl).
  split; [exact (dispatched_emitted _ _ _ _ Hack')|].
  split; [exact (dispatched_calls _ _ _ _ Hack')|].
  split; [exact (proj1 (dropped_silent _ _ Htel'))|].
  exact (proj1 (dropped_silent _ _ Hbad)).
Defined.

(** ** Reconnecting *)

Definition max_error : JsVal := JError "Max reconnection attempts reached".
Definition construction_error : JsVal := JError "SyntaxError".

(** The world after [connectWebSocket] has closed and dropped the socket it
    held, if any. *)
Definition teardown (w : World) : World :=
  match socket w with
  | Some s =>
      set_socket None
        (effect (EClose s None None)
           (set_sockets
              match sockets w !! s with
              | Some CONNECTING | Some OPEN => <[s := CLOSING]> (sockets w)
              | _ => sockets w
              end w))
  | None => w
  end.

(** The world after a timer has been armed by [scheduleReconnect]. *)
Definition rearmed (w : World) : World :=
  mkWorld (socket w) (listeners w) (S (reconnectAttempts w)) (Some (next_timer w))
    (wsUrl w) (sockets w)
    (match reconnectTimeout w with
     | Some t => List.filter (fun t' => negb (Nat.eqb t' t)) (timers w)
     | None => timers w
     end ++ [next_timer w])
    (S (next_timer w))
    (trace w ++ ELog "Reconnecting car..." ::
       match reconnectTimeout w with Some t => [EClearTimeout t] | None => [] end ++
       [ESetTimeout (next_timer w) reconnectDelay]).

(** The world after the pending reconnect timer, if one is stored, has been
    cleared and forgotten. *)
Definition disarmed (w : World) : World :=
  match reconnectTimeout w with
  | Some t =>
      set_reconnectTimeout None
        (effect (EClearTimeout t)
           (set_timers (List.filter (fun t' => negb (Nat.eqb t' t)) (timers w)) w))
  | None => w
  end.

Section Reconnect.
Context {R : Runtime}.

Lemma scheduleReconnect_exhausted w :
  (maxReconnectAttempts <= reconnectAttempts w)%nat ->
  scheduleReconnect w =
  (completion (thrown (subscribers w "error") max_error),
   effects (ELog "Max car reconnection attempts reached" ::
            emit_effects w "error" max_error) w).
Proof.
  intros Hle. unfold scheduleReconnect. unfold_m.
  destruct (Nat.leb_spec maxReconnectAttempts (reconnectAttempts w)); [|lia].
  rewrite emit_eq, effects_app. done.
Qed.

Lemma scheduleReconnect_budget w :
  (reconnectAttempts w < maxReconnectAttempts)%nat ->
  scheduleReconnect w = (Normal tt, rearmed w).
Proof.
  intros Hlt. unfold scheduleReconnect, rearmed. unfold_m.
  destruct (Nat.leb_spec maxReconnectAttempts (reconnectAttempts w)); [lia|].
  destruct w as [so li ra [t|] url ss ts nt tr]; simpl;
    unfold clearTimeout, setTimeout; unfold_m;
    unfold effects, set_reconnectTimeout; simpl;
    repeat rewrite <- app_assoc; done.
Qed.

Lemma connectWebSocket_accepted w :
  connectWebSocket true w =
  (Normal tt,
   let w1 := teardown w in
   set_socket (Some (length (sockets w1)))
     (effect (ENewSocket (length (sockets w1)) (wsUrl w1))
        (set_sockets (sockets w1 ++ [CONNECTING]) w1))).
Proof.
  unfold connectWebSocket, teardown. unfold_m.
  destruct (socket w) as [s|]; simpl; unfold ws_close, WebSocket_new; unfold_m; done.
Qed.

Lemma connectWebSocket_rejected w :
  connectWebSocket false w =
  let w1 := effects (ELog "Failed to create car WebSocket" ::
                     emit_effects w "error" construction_error) (teardown w) in
  match thrown (subscribers w "error") construction_error with
  | Some e => (Throw e, w1)
  | None => scheduleReconnect w1
  end.
Proof.
  unfold connectWebSocket, teardown, construction_error. unfold_m.
  destruct (socket w) as [s|]; simpl; unfold ws_close, WebSocket_new; unfold_m;
    rewrite emit_eq; unfold emit_effects, subscribers; simpl;
    destruct (thrown (default [] (listeners w !! "error"%string)) (JError "SyntaxError"));
    simpl; rewrite effects_app; done.
Qed.

Lemma onclose_eq code w :
  onclose code w =
  let w1 := effects (ELog "Car WebSocket disconnected" ::
                     emit_effects w "connected" (JBool false)) w in
  match thrown (subscribers w "connected") (JBool false) with
  | Some e => (Throw e, w1)
  | None => if (code =? 1000)%Z then (Normal tt, w1) else scheduleReconnect w1
  end.
Proof.
  unfold onclose. unfold_m. rewrite emit_eq. unfold emit_effects, subscribers; simpl.
  destruct (thrown (default [] (listeners w !! "connected"%string)) (JBool false));
    simpl; rewrite effects_app; [done|].
  by destruct (code =? 1000)%Z.
Qed.

Lemma onopen_eq w :
  onopen w =
  (completion (thrown (subscribers w "connected") (JBool true)),
   effects (emit_effects w "connected" (JBool true))
     (disarmed (set_reconnectAttempts 0 (effect (ELog "Car WebSocket connected") w)))).
Proof.
  unfold onopen, disarmed. unfold_m.
  destruct (reconnectTimeout w) as [t|]; simpl; unfold clearTimeout; unfold_m;
    rewrite emit_eq; done.
Qed.

Lemma onerror_eq error w :
  onerror error w =
  (completion (thrown (subscribers w "error") error),
   effects (ELog "Car WebSocket error" :: emit_effects w "error" error) w).
Proof.
  unfold onerror. unfold_m. rewrite emit_eq, effects_app. done.
Qed.

Lemma disconnect_eq w :
  disconnect w =
  (Normal tt,
   set_reconnectAttempts 0
     (set_listeners ∅
        match socket w with
        | Some s =>
            set_socket None
              (let w1 := disarmed (effect (ELog "Disconnecting car WebSocket...") w) in
               effect (EClose s (Some 1000%Z) (Some "Manual disconnect"%string))
                 (set_sockets
                    match sockets w1 !! s with
                    | Some CONNECTING | Some OPEN => <[s := CLOSING]> (sockets w1)
                    | _ => sockets w1
                    end w1))
        | None => w
        end)).
Proof.
  unfold disconnect, disarmed. unfold_m.
  destruct (socket w) as [s|]; simpl; [|done].
  destruct (reconnectTimeout w) as [t|]; simpl;
    unfold clearTimeout, ws_close; unfold_m; done.
Qed.

Lemma connect_closed url accepted w :
  is_open w = false ->
  connect url accepted w =
  match connectWebSocket accepted
          (effect (ELog "Connecting car") (set_wsUrl (convertToWebSocketUrl url) w)) with
  | (Normal _, w') => (Normal (socket w'), w')
  | (Throw e, w') => (Throw e, w')
  end.
Proof.
  intros Hc. unfold connect, isConnected. unfold_m. rewrite Hc. simpl.
  by destruct (connectWebSocket accepted _) as [[[]|e] w'].
Qed.
End Reconnect.

(** ** Exceptions at the public API *)

Section Exceptions.
Context {R : Runtime}.

Lemma thrown_by cbs d e :
  thrown cbs d = Some e -> exists h, h ∈ cbs /\ handler_throws h d = Some e.
Proof.
  induction cbs as [|h rest IH]; simpl; [done|].
  destruct (handler_throws h d) as [e'|] eqn:E.
  - intros [= <-]. exists h. split; [apply elem_of_cons; by left|done].
  - intros Ht. destruct (IH Ht) as (h' & Hin & Hh').
    exists h'. split; [apply elem_of_cons; by right|done].
Qed.

(** What [scheduleReconnect] throws was thrown by an [error] subscriber. *)
Lemma scheduleReconnect_throws w e :
  fst (scheduleReconnect w) = Throw e ->
  exists h d, h ∈ subscribers w "error" /\ handler_throws h d = Some e.
Proof.
  destruct (Nat.le_gt_cases maxReconnectAttempts (reconnectAttempts w)) as [Hle|Hlt].
  - rewrite scheduleReconnect_exhausted by done. simpl.
    destruct (thrown _ _) as [e'|] eqn:Ht; simpl; [|done].
    intros [= <-]. destruct (thrown_by _ _ _ Ht) as (h & Hin & Hh). eauto.
  - rewrite scheduleReconnect_budget by done. done.
Qed.

Lemma connectWebSocket_throws accepted w e :
  fst (connectWebSocket accepted w) = Throw e ->
  accepted = false /\
  exists h d, h ∈ subscribers w "error" /\ handler_throws h d = Some e.
Proof.
  destruct accepted.
  - by rewrite connectWebSocket_accepted.
  - rewrite connectWebSocket_rejected. cbn zeta.
    destruct (thrown (subscribers w "error") construction_error) as [e'|] eqn:Ht.
    + simpl. intros [= <-]. split; [done|].
      destruct (thrown_by _ _ _ Ht) as (h & Hin & Hh). eauto.
    + intros Hs. split; [done|].
      apply scheduleReconnect_throws in Hs as (h & d & Hin & Hh).
      exists h, d. split; [|done].
      unfold teardown in Hin. by destruct (socket w).
Qed.

Lemma emitted_ECall d cbs : emitted (map (fun h => ECall h d) cbs) = [].
Proof. by induction cbs. Qed.

(** A [connect] whose socket cannot be constructed: what it emits, whom it
    calls, and what it returns. *)
Lemma connect_refused url w :
  is_open w = false ->
  let w' := snd (connect url false w) in
  let subs := subscribers w "error" in
  let terminal :=
    match thrown subs construction_error with
    | Some _ => false
    | None => (maxReconnectAttempts <=? reconnectAttempts w)%nat
    end in
  socket w' = None /\
  emitted (trace w') =
    emitted (trace w) ++ ("error"%string, construction_error) ::
    (if terminal then [("error"%string, max_error)] else []) /\
  calls (trace w') =
    calls (trace w) ++
    map (fun h => (h, construction_error)) (invoked subs construction_error) ++
    (if terminal then map (fun h => (h, max_error)) (invoked subs max_error) else []) /\
  (thrown subs construction_error = None -> thrown subs max_error = None ->
   fst (connect url false w) = Normal None).
Proof.
  intros Ho. cbn zeta. rewrite (connect_closed url false w Ho).
  rewrite connectWebSocket_rejected. cbn zeta.
  set (w0 := effect (ELog "Connecting car") (set_wsUrl (convertToWebSocketUrl url) w)).
  assert (Hsubs : forall k, subscribers w0 k = subscribers w k) by done.
  assert (Hsock : socket (teardown w0) = None).
  { unfold teardown. by destruct (socket w0) eqn:E. }
  assert (Hem : emitted (trace (teardown w0)) = emitted (trace w)).
  { unfold teardown. destruct (socket w0); simpl; rewrite !emitted_app; simpl;
      by rewrite ?app_nil_r. }
  assert (Hca : calls (trace (teardown w0)) = calls (trace w)).
  { unfold teardown. destruct (socket w0); simpl; rewrite !calls_app; simpl;
      by rewrite ?app_nil_r. }
  assert (Hatt : reconnectAttempts (teardown w0) = reconnectAttempts w).
  { unfold teardown. by destruct (socket w0). }
  unfold emit_effects. rewrite !Hsubs.
  destruct (thrown (subscribers w "error") construction_error) as [e|] eqn:Ht.
  - simpl. rewrite Hsock. split; [done|].
    rewrite emitted_app, calls_app, Hem, Hca. simpl.
    rewrite app_nil_r. split; [|split; [|done]].
    + by rewrite emitted_ECall.
    + by rewrite calls_ECall.
  - set (w1 := effects _ (teardown w0)).
    assert (Hsubs1 : forall k, subscribers w1 k = subscribers w k).
    { intros k. unfold w1, teardown. by destruct (socket w0). }
    assert (Hsock1 : socket w1 = None) by exact Hsock.
    assert (Hatt1 : reconnectAttempts w1 = reconnectAttempts w) by exact Hatt.
    assert (Hem1 : emitted (trace w1) =
                   emitted (trace w) ++ [("error"%string, construction_error)]).
    { unfold w1. simpl. rewrite emitted_app, Hem. simpl. by rewrite emitted_ECall. }
    assert (Hca1 : calls (trace w1) =
                   calls (trace w) ++
                   map (fun h => (h, construction_error))
                       (invoked (subscribers w "error") construction_error)).
    { unfold w1. simpl. rewrite calls_app, Hca. simpl. by rewrite calls_ECall. }
    clearbody w1.
    destruct (Nat.leb_spec maxReconnectAttempts (reconnectAttempts w)) as [Hle|Hlt].
    + rewrite scheduleReconnect_exhausted by (by rewrite Hatt1).
      unfold emit_effects. rewrite Hsubs1.
      assert (Hw : forall c : Completion unit,
                match c with
                | Normal _ => socket w1 = None
                | Throw _ => True
                end) by (intros []; done).
      destruct (completion (thrown (subscribers w "error") max_error)) as [[]|e] eqn:Hc;
        simpl; rewrite Hsock1, emitted_app, calls_app, Hem1, Hca1; simpl;
        rewrite calls_ECall, <- !app_assoc; simpl.
      * rewrite emitted_ECall. done.
      * rewrite emitted_ECall. split; [done|]. split; [done|]. split; [done|].
        intros _ Hm. by rewrite Hm in Hc.
    + rewrite scheduleReconnect_budget by (by rewrite Hatt1).
      simpl. rewrite Hsock1, emitted_app, calls_app, Hem1, Hca1. simpl.
      rewrite emitted_app, calls_app. simpl.
      split; [done|]. split; [|split; [|done]].
      * rewrite <- app_assoc. simpl. by destruct (reconnectTimeout w1).
      * rewrite <- app_assoc. by destruct (reconnectTimeout w1).
Qed.

(** C6, as the code has it. [sendCommand], [on], [off], [disconnect],
    [isConnected] and [resetReconnectAttempts] never throw; [sendCommand]
    reports a closed channel by returning [false].  [connect] does not
    throw when the socket is constructed.  When construction fails, the
    channel holds no socket, and [connect] has emitted [error] with the
    construction error and called the [error] subscribers with it, in
    order and up to the first that throws; if none throws and the retry
    budget is spent, the terminal [error] follows, and nothing else is
    emitted.  The only exceptions that reach the caller of [connect] are
    those thrown by a subscriber of [error], which the channel calls
    without a failure boundary; without such a subscriber [connect]
    returns [null]. *)
Theorem api_exceptions (w : World) :
  (forall c sp now, fst (sendCommand c sp now w) = Normal (is_open w)) /\
  (forall ev h, fst (on ev h w) = Normal tt) /\
  (forall ev cb, fst (off ev cb w) = Normal tt) /\
  fst (disconnect w) = Normal tt /\
  fst (isConnected w) = Normal (is_open w) /\
  fst (resetReconnectAttempts w) = Normal tt /\
  (forall url, fst (connect url true w) = Normal (socket (snd (connect url true w)))) /\
  (forall url e, fst (connect url false w) = Throw e ->
     exists h d, h ∈ subscribers w "error" /\ handler_throws h d = Some e) /\
  (forall url, (forall h d, h ∈ subscribers w "error" -> handler_throws h d = None) ->
     fst (connect url false w) = Normal (socket (snd (connect url false w)))) /\
  (forall url, is_open w = false ->
     let w' := snd (connect url false w) in
     let subs := subscribers w "error" in
     let terminal :=
       match thrown subs construction_error with
       | Some _ => false
       | None => (maxReconnectAttempts <=? reconnectAttempts w)%nat
       end in
     socket w' = None /\
     emitted (trace w') =
       emitted (trace w) ++ ("error"%string, construction_error) ::
       (if terminal then [("error"%string, max_error)] else []) /\
     calls (trace w') =
       calls (trace w) ++
       map (fun h => (h, construction_error)) (invoked subs construction_error) ++
       (if terminal then map (fun h => (h, max_error)) (invoked subs max_error) else []) /\
     (thrown subs construction_error = None -> thrown subs max_error = None ->
      fst (connect url false w) = Normal None)).
Proof.
  assert (Hconn : forall url accepted,
            (exists e, fst (connect url accepted w) = Throw e /\ accepted = false /\
               exists h d, h ∈ subscribers w "error" /\ handler_throws h d = Some e) \/
            fst (connect url accepted w) = Normal (socket (snd (connect url accepted w)))).
  { intros url accepted. destruct (is_open w) eqn:Ho.
    - right. by rewrite (connect_open url accepted w Ho).
    - rewrite (connect_closed url accepted w Ho).
      destruct (connectWebSocket accepted _) as [[[]|e] w'] eqn:Hc; [by right|].
      left. exists e. split; [done|].
      pose proof (connectWebSocket_throws accepted
                    (effect (ELog "Connecting car")
                       (set_wsUrl (convertToWebSocketUrl url) w)) e) as Ht.
      rewrite Hc in Ht. exact (Ht eq_refl). }
  split; [|split; [|split; [|split; [|split; [|split; [|split; [|split; [|split]]]]]]]].
  - intros c sp now. destruct (is_open w) eqn:Ho.
    + destruct (is_open_socket w Ho) as (s & Hs & Hst).
      by rewrite (sendCommand_open c sp now w s Hs Hst).
    + by rewrite sendCommand_closed.
  - done.
  - done.
  - by rewrite disconnect_eq.
  - done.
  - done.
  - intros url. destruct (Hconn url true) as [(e & _ & Hf & _)|Hn]; [done|exact Hn].
  - intros url e He. destruct (Hconn url false) as [(e' & He' & _ & Hsub)|Hn].
    + rewrite He in He'. by injection He' as <-.
    + by rewrite He in Hn.
  - intros url Hq. destruct (Hconn url false) as [(e & _ & _ & h & d & Hin & Hh)|Hn].
    + by rewrite (Hq h d Hin) in Hh.
    + exact Hn.
  - intros url Ho. exact (connect_refused url w Ho).
Qed.
End Exceptions.

(** C6, as stated, fails: with a throwing [error] subscriber, a [connect]
    whose socket cannot be constructed throws to its caller. *)
Lemma connect_throws :
  let w := snd (on "error" faulty initial) in
  fst (connect (R:=browser) "http://bad host" false w) = Throw (JError "subscriber failed").
Proof. reflexivity. Qed.

Lemma api_exceptions_witness :
  let w := snd (on "error" 1 initial) in
  fst (connect (R:=browser) "http://bad host" false w) = Normal None /\
  fst (sendCommand (R:=browser) Command.stop None 0 w) = Normal false /\
  emitted (trace (snd (connect (R:=browser) "http://bad host" false w))) =
    [("error"%string, construction_error)] /\
  calls (trace (snd (connect (R:=browser) "http://bad host" false w))) =
    [(1, construction_error)].
Proof.
  cbn zeta.
  destruct (api_exceptions (R:=browser) (snd (on "error" 1 initial)))
    as (Hsend & _ & _ & _ & _ & _ & _ & _ & Hconn & Hrefused).
  destruct (Hrefused "http://bad host" eq_refl) as (_ & Hemitted & Hcalls & _).
  split; [|split; [|split]].
  - rewrite (Hconn "http://bad host"); [reflexivity|].
    intros h d Hin. apply list_elem_of_singleton in Hin as ->. reflexivity.
  - exact (Hsend Command.stop None 0%Z).
  - exact Hemitted.
  - exact Hcalls.
Defined.

(** ** Manual disconnect *)

Lemma trace_effects es w : trace (effects es w) = trace w ++ es.
Proof. done. Qed.

Lemma scheduled_log m tr : scheduled (ELog m :: tr) = scheduled tr.
Proof. done. Qed.
Lemma scheduled_emit {R : Runtime} w event d : scheduled (emit_effects w event d) = [].
Proof. unfold emit_effects, scheduled. simpl. by induction (invoked _ _). Qed.
Lemma emitted_log m tr : emitted (ELog m :: tr) = emitted tr.
Proof. done. Qed.
Lemma emitted_emit {R : Runtime} w event d : emitted (emit_effects w event d) = [(event, d)].
Proof.
  unfold emit_effects, emitted. simpl. f_equal. by induction (invoked _ _).
Qed.

Section Disconnect.
Context {R : Runtime}.

(** With a socket at hand, [disconnect] does all the specification lists:
    the stored timer is no longer pending, the socket is closed with code
    1000 and dropped, the registry is empty and the counter is 0. *)
Lemma disconnect_with_socket w s :
  socket w = Some s ->
  let w' := snd (disconnect w) in
  socket w' = None /\ listeners w' = ∅ /\ reconnectAttempts w' = 0 /\
  reconnectTimeout w' = None /\
  (forall t, reconnectTimeout w = Some t -> t ∉ timers w') /\
  closes (trace w') = closes (trace w) ++ [(s, Some 1000%Z)] /\
  scheduled (trace w') = scheduled (trace w).
Proof.
  intros Hs. rewrite disconnect_eq, Hs. cbn zeta. simpl.
  unfold disarmed; simpl.
  destruct (reconnectTimeout w) as [t|] eqn:Ht; simpl.
  - repeat split; try done.
    + intros t' [= <-] Hin. apply list_elem_of_In, filter_In in Hin as [_ Hne].
      by rewrite Nat.eqb_refl in Hne.
    + rewrite !closes_app. simpl. by rewrite !app_nil_r.
    + rewrite !scheduled_app. simpl. by rewrite !app_nil_r.
  - repeat split; try done.
    + rewrite !closes_app. simpl. by rewrite !app_nil_r.
    + rewrite !scheduled_app. simpl. by rewrite !app_nil_r.
Qed.

(** The close event that answers a close with code 1000 arms no timer. *)
Lemma normal_close_no_reconnect w :
  let w' := snd (onclose 1000 w) in
  scheduled (trace w') = scheduled (trace w) /\ timers w' = timers w /\
  reconnectAttempts w' = reconnectAttempts w.
Proof.
  rewrite onclose_eq. cbn zeta.
  destruct (thrown _ _); [|rewrite Z.eqb_refl]; cbn [snd];
    rewrite trace_effects, scheduled_app, scheduled_log, scheduled_emit, app_nil_r;
    done.
Qed.

(** C4, where the code departs from it. Without a socket at hand,
    [disconnect] only empties the registry and zeroes the counter: the
    timer clearing sits inside the [if (this.socket)] block, so a
    reconnect timer that is pending stays pending. *)
Theorem disconnect_keeps_timer (w : World) :
  socket w = None ->
  snd (disconnect w) = set_reconnectAttempts 0 (set_listeners ∅ w) /\
  timers (snd (disconnect w)) = timers w /\
  reconnectTimeout (snd (disconnect w)) = reconnectTimeout w.
Proof. intros Hs. rewrite disconnect_eq, Hs. done. Qed.
End Disconnect.

(** A [connect] whose socket cannot be constructed leaves no socket and one
    pending timer; [disconnect] leaves that timer pending, and when it fires
    the channel constructs a socket although it was disconnected. *)
Lemma disconnect_keeps_timer_witness :
  let w := run (R:=browser) [Connect "http://bad host" false] initial in
  socket w = None /\ timers w = [1] /\
  timers (snd (disconnect w)) = [1] /\
  created (trace (run (R:=browser) [TimerFired 1 true] (snd (disconnect w)))) = [0].
Proof.
  cbn zeta.
  destruct (disconnect_keeps_timer
              (run (R:=browser) [Connect "http://bad host" false] initial) eq_refl)
    as (_ & Htimers & _).
  split; [reflexivity|]. split; [reflexivity|].
  split; [rewrite Htimers; reflexivity|reflexivity].
Defined.

(** ** The reconnect budget *)

(** The terminal [error] events in a trace. *)
Definition is_max_error (p : string * JsVal) : bool :=
  match p with
  | (ev, JError m) =>
      String.eqb ev "error" && String.eqb m "Max reconnection attempts reached"
  | _ => false
  end.
Definition max_errors (tr : list Effect) : nat :=
  length (List.filter is_max_error (emitted tr)).

Lemma max_errors_app tr es : max_errors (tr ++ es) = max_errors tr + max_errors es.
Proof. unfold max_errors. by rewrite emitted_app, List.filter_app, length_app. Qed.
Lemma max_errors_log m tr : max_errors (ELog m :: tr) = max_errors tr.
Proof. done. Qed.
Lemma max_errors_emit {R : Runtime} w event d :
  max_errors (emit_effects w event d) = if is_max_error (event, d) then 1 else 0.
Proof.
  unfold max_errors. rewrite emitted_emit. cbn [List.filter].
  by destruct (is_max_error (event, d)).
Qed.

(** An event of a failing connection: a close with an abnormal code, a
    [connect] whose socket the host refuses to construct, or the reconnect
    timer firing (with a socket constructed or refused). *)
Definition failure_event (e : Event) : bool :=
  match e with
  | WsClose _ code => negb (code =? 1000)%Z
  | Connect _ accepted => negb accepted
  | TimerFired _ _ => true
  | _ => false
  end.

(** Whether the event, in this world, is a failure that asks for a
    reconnect: the close of a socket that was not closed yet, a refused
    construction on [connect] while not Open, a refused construction when a
    pending timer fires. *)
Definition fails (w : World) (e : Event) : bool :=
  match e with
  | WsClose s code =>
      negb (code =? 1000)%Z &&
      match sockets w !! s with
      | Some CONNECTING | Some OPEN | Some CLOSING => true
      | _ => false
      end
  | Connect _ accepted => negb accepted && negb (is_open w)
  | TimerFired t accepted => negb accepted && bool_decide (t ∈ timers w)
  | _ => false
  end.

(** No subscriber registered in [w] throws. *)
Definition quiet {R : Runtime} (w : World) : Prop :=
  forall event h d, h ∈ subscribers w event -> handler_throws h d = None.

Section Budget.
Context {R : Runtime}.

(** The failures in a run. *)
Fixpoint failures (events : list Event) (w : World) : nat :=
  match events with
  | [] => 0
  | e :: rest => (if fails w e then 1 else 0) + failures rest (snd (step e w))
  end.

Lemma quiet_thrown w event d : quiet w -> thrown (subscribers w event) d = None.
Proof. intros Hq. apply invoked_all. intros h Hin. by apply (Hq event). Qed.

(** What a call of [scheduleReconnect] does to the budget. *)
Lemma scheduleReconnect_spends w :
  let w' := snd (scheduleReconnect w) in
  listeners w' = listeners w /\
  if (maxReconnectAttempts <=? reconnectAttempts w)%nat then
    reconnectAttempts w' = reconnectAttempts w /\
    scheduled (trace w') = scheduled (trace w) /\
    timers w' = timers w /\
    emitted (trace w') = emitted (trace w) ++ [("error"%string, max_error)] /\
    max_errors (trace w') = S (max_errors (trace w))
  else
    fst (scheduleReconnect w) = Normal tt /\
    reconnectAttempts w' = S (reconnectAttempts w) /\
    scheduled (trace w') = scheduled (trace w) ++ [next_timer w] /\
    next_timer w ∈ timers w' /\ reconnectTimeout w' = Some (next_timer w) /\
    ESetTimeout (next_timer w) reconnectDelay ∈ trace w' /\
    emitted (trace w') = emitted (trace w) /\
    max_errors (trace w') = max_errors (trace w).
Proof.
  cbn zeta.
  destruct (Nat.leb_spec maxReconnectAttempts (reconnectAttempts w)) as [Hle|Hlt].
  - rewrite scheduleReconnect_exhausted by done. cbn [snd].
    rewrite trace_effects, scheduled_app, emitted_app, max_errors_app.
    rewrite scheduled_log, scheduled_emit, emitted_log, emitted_emit.
    rewrite max_errors_log, max_errors_emit, app_nil_r.
    repeat split; try done. simpl. lia.
  - rewrite scheduleReconnect_budget by done. unfold rearmed. cbn [fst snd].
    simpl. rewrite scheduled_app, emitted_app, max_errors_app.
    assert (Hs : scheduled (ELog "Reconnecting car..." ::
                 match reconnectTimeout w with Some t => [EClearTimeout t] | None => [] end ++
                 [ESetTimeout (next_timer w) reconnectDelay]) = [next_timer w])
      by (by destruct (reconnectTimeout w)).
    assert (He : emitted (ELog "Reconnecting car..." ::
                 match reconnectTimeout w with Some t => [EClearTimeout t] | None => [] end ++
                 [ESetTimeout (next_timer w) reconnectDelay]) = [])
      by (by destruct (reconnectTimeout w)).
    assert (Hm : max_errors (ELog "Reconnecting car..." ::
                 match reconnectTimeout w with Some t => [EClearTimeout t] | None => [] end ++
                 [ESetTimeout (next_timer w) reconnectDelay]) = 0)
      by (by destruct (reconnectTimeout w)).
    rewrite Hs, He, Hm, app_nil_r, Nat.add_0_r.
    repeat split; try done.
    + apply elem_of_app. right. by apply list_elem_of_singleton.
    + apply elem_of_app. right. apply elem_of_cons. right.
      apply elem_of_app. right. by apply list_elem_of_singleton.
Qed.
End Budget.

(** Two ways a callback can leave the budget.  [untouched]: counter, timers
    armed, terminal errors and registry are as before.  [charged]: one call
    of [scheduleReconnect] happened: below the maximum it counted one
    attempt and armed one timer, at the maximum it emitted the terminal
    error and armed nothing. *)
Definition untouched (w w' : World) : Prop :=
  listeners w' = listeners w /\
  reconnectAttempts w' = reconnectAttempts w /\
  next_timer w' = next_timer w /\
  scheduled (trace w') = scheduled (trace w) /\
  max_errors (trace w') = max_errors (trace w).

Definition charged (w w' : World) : Prop :=
  listeners w' = listeners w /\
  if (maxReconnectAttempts <=? reconnectAttempts w)%nat then
    reconnectAttempts w' = reconnectAttempts w /\
    scheduled (trace w') = scheduled (trace w) /\
    max_errors (trace w') = S (max_errors (trace w))
  else
    reconnectAttempts w' = S (reconnectAttempts w) /\
    scheduled (trace w') = scheduled (trace w) ++ [next_timer w] /\
    max_errors (trace w') = max_errors (trace w).

Lemma untouched_refl w : untouched w w.
Proof. by repeat split. Qed.

Lemma untouched_trans w1 w2 w3 : untouched w1 w2 -> untouched w2 w3 -> untouched w1 w3.
Proof.
  intros (A1 & A2 & A3 & A4 & A5) (B1 & B2 & B3 & B4 & B5).
  repeat split; congruence.
Qed.

Lemma untouched_charged w1 w2 w3 : untouched w1 w2 -> charged w2 w3 -> charged w1 w3.
Proof.
  intros (A1 & A2 & A3 & A4 & A5) (B1 & B2). split; [congruence|].
  rewrite A2, A3, A4, A5 in B2. exact B2.
Qed.

Lemma untouched_effects es w :
  scheduled es = [] -> max_errors es = 0 -> untouched w (effects es w).
Proof.
  intros Hs Hm. repeat split; simpl.
  - by rewrite scheduled_app, Hs, app_nil_r.
  - by rewrite max_errors_app, Hm, Nat.add_0_r.
Qed.

Lemma untouched_teardown w : untouched w (teardown w).
Proof.
  unfold teardown. destruct (socket w) as [s|]; [|apply untouched_refl].
  repeat split; simpl.
  - by rewrite scheduled_app, app_nil_r.
  - by rewrite max_errors_app, Nat.add_0_r.
Qed.

Section Callbacks.
Context {R : Runtime}.

Lemma scheduleReconnect_charged w : charged w (snd (scheduleReconnect w)).
Proof.
  pose proof (scheduleReconnect_spends w) as [Hl Hs]. split; [exact Hl|].
  destruct (maxReconnectAttempts <=? reconnectAttempts w)%nat.
  - destruct Hs as (? & ? & _ & _ & ?). done.
  - destruct Hs as (_ & ? & ? & _ & _ & _ & _ & ?). done.
Qed.

Lemma untouched_emit w w1 event d :
  is_max_error (event, d) = false ->
  untouched w w1 -> untouched w (effects (emit_effects w1 event d) w1).
Proof.
  intros Hm Hu. apply (untouched_trans _ w1); [done|].
  apply untouched_effects; [apply scheduled_emit|].
  by rewrite max_errors_emit, Hm.
Qed.

(** The [catch] of [connectWebSocket]: a construction failure charges the
    budget, unless an [error] subscriber throws first. *)
Lemma connectWebSocket_rejected_budget w :
  let w' := snd (connectWebSocket false w) in
  (thrown (subscribers w "error") construction_error = None -> charged w w') /\
  (untouched w w' \/ charged w w').
Proof.
  cbn zeta. rewrite connectWebSocket_rejected. cbn zeta.
  assert (Hu : untouched w
            (effects (ELog "Failed to create car WebSocket" ::
                      emit_effects w "error" construction_error) (teardown w))).
  { apply (untouched_trans _ (teardown w)); [apply untouched_teardown|].
    apply untouched_effects.
    - by rewrite scheduled_log, scheduled_emit.
    - by rewrite max_errors_log, max_errors_emit. }
  destruct (thrown (subscribers w "error") construction_error) as [e|].
  - split; [done|]. left. exact Hu.
  - assert (Hc : charged w (snd (scheduleReconnect
               (effects (ELog "Failed to create car WebSocket" ::
                         emit_effects w "error" construction_error) (teardown w)))))
      by (eapply untouched_charged; [exact Hu|apply scheduleReconnect_charged]).
    split; [done|]. by right.
Qed.

Lemma connectWebSocket_accepted_budget w :
  untouched w (snd (connectWebSocket true w)).
Proof.
  rewrite connectWebSocket_accepted. cbn zeta. cbn [snd].
  apply (untouched_trans _ (teardown w)); [apply untouched_teardown|].
  repeat split; simpl.
  - by rewrite scheduled_app, app_nil_r.
  - by rewrite max_errors_app, Nat.add_0_r.
Qed.

(** [onclose]: an abnormal code charges the budget, unless a [connected]
    subscriber throws first; code 1000 never does. *)
Lemma onclose_budget code w :
  let w' := snd (onclose code w) in
  (thrown (subscribers w "connected") (JBool false) = None -> code <> 1000%Z ->
     charged w w') /\
  (code = 1000%Z -> untouched w w') /\
  (untouched w w' \/ charged w w').
Proof.
  cbn zeta. rewrite onclose_eq. cbn zeta.
  assert (Hu : untouched w
            (effects (ELog "Car WebSocket disconnected" ::
                      emit_effects w "connected" (JBool false)) w)).
  { apply untouched_effects.
    - by rewrite scheduled_log, scheduled_emit.
    - by rewrite max_errors_log, max_errors_emit. }
  assert (Hc : charged w (snd (scheduleReconnect
             (effects (ELog "Car WebSocket disconnected" ::
                       emit_effects w "connected" (JBool false)) w))))
    by (eapply untouched_charged; [exact Hu|apply scheduleReconnect_charged]).
  destruct (thrown (subscribers w "connected") (JBool false)) as [e|].
  - split; [done|]. split; [done|]. by left.
  - destruct (Z.eqb_spec code 1000) as [->|Hne].
    + split; [done|]. split; [done|]. by left.
    + split; [done|]. split; [done|]. by right.
Qed.
End Callbacks.

Ltac solve_untouched :=
  repeat split; simpl;
  rewrite ?scheduled_app, ?max_errors_app; simpl;
  rewrite ?app_nil_r, ?Nat.add_0_r; done.

Section Steps.
Context {R : Runtime}.
Local Arguments Nat.min : simpl never.
Local Arguments Nat.sub : simpl never.

Lemma step_close s code w :
  step (WsClose s code) w =
  match sockets w !! s with
  | Some CONNECTING | Some OPEN | Some CLOSING =>
      onclose code (set_sockets (<[s := CLOSED]> (sockets w)) w)
  | _ => (Normal tt, w)
  end.
Proof.
  unfold step, set_readyState, mbind, M_bind, bind, gets, modify, ret.
  by destruct (sockets w !! s) as [[]|].
Qed.

Lemma step_timer t accepted w :
  step (TimerFired t accepted) w =
  if bool_decide (t ∈ timers w) then
    connectWebSocket accepted
      (set_timers (List.filter (fun t' => negb (Nat.eqb t' t)) (timers w)) w)
  else (Normal tt, w).
Proof.
  unfold step, mbind, M_bind, bind, gets, modify, ret.
  by destruct (bool_decide (t ∈ timers w)).
Qed.

Lemma step_connect url accepted w :
  snd (step (Connect url accepted) w) = snd (connect url accepted w).
Proof.
  unfold step, void, bind, ret. by destruct (connect url accepted w) as [[] ?].
Qed.

Lemma step_open s w :
  step (WsOpen s) w =
  match sockets w !! s with
  | Some CONNECTING => onopen (set_sockets (<[s := OPEN]> (sockets w)) w)
  | _ => (Normal tt, w)
  end.
Proof.
  unfold step, set_readyState, mbind, M_bind, bind, gets, modify, ret.
  by destruct (sockets w !! s) as [[]|].
Qed.

(** Under quiet subscribers, an event of a failing connection charges the
    budget exactly when it is a failure, and leaves it untouched
    otherwise. *)
Lemma step_failure e w :
  quiet w -> failure_event e = true ->
  if fails w e then charged w (snd (step e w)) else untouched w (snd (step e w)).
Proof.
  intros Hq He. destruct e; try discriminate He; simpl in He.
  - (* connect *)
    rewrite step_connect. destruct accepted; [done|]. simpl.
    destruct (is_open w) eqn:Ho; simpl.
    + rewrite (connect_open backendUrl false w Ho). cbn [snd].
      by apply untouched_effects.
    + rewrite (connect_closed backendUrl false w Ho).
      set (w1 := effect (ELog "Connecting car")
                   (set_wsUrl (convertToWebSocketUrl backendUrl) w)).
      assert (Hu : untouched w w1) by solve_untouched.
      destruct (connectWebSocket_rejected_budget w1) as [Hc _].
      specialize (Hc (quiet_thrown w "error" construction_error Hq)).
      destruct (connectWebSocket false w1) as [[[]|e] w']; cbn [snd] in *;
        by apply (untouched_charged w w1).
  - (* close *)
    rewrite step_close. simpl. rewrite He. simpl.
    set (w1 := set_sockets (<[s := CLOSED]> (sockets w)) w).
    assert (Hu : untouched w w1) by solve_untouched.
    assert (Hc : charged w (snd (onclose code w1))).
    { apply (untouched_charged w w1 _ Hu).
      apply onclose_budget.
      - apply (quiet_thrown w "connected" (JBool false) Hq).
      - intros ->. by rewrite Z.eqb_refl in He. }
    destruct (sockets w !! s) as [[]|]; try exact Hc; apply untouched_refl.
  - (* timer *)
    rewrite step_timer. simpl.
    set (w1 := set_timers (List.filter (fun t' => negb (Nat.eqb t' t)) (timers w)) w).
    assert (Hu : untouched w w1) by solve_untouched.
    destruct (bool_decide (t ∈ timers w)); destruct accepted; simpl;
      try apply untouched_refl.
    + apply (untouched_trans w w1 _ Hu), connectWebSocket_accepted_budget.
    + apply (untouched_charged w w1 _ Hu).
      apply connectWebSocket_rejected_budget.
      apply (quiet_thrown w "error" construction_error Hq).
Qed.

Lemma quiet_listeners w w' : listeners w' = listeners w -> quiet w -> quiet w'.
Proof.
  intros Hl Hq event h d. unfold subscribers. rewrite Hl. apply (Hq event h d).
Qed.

(** The lifecycle along a run of failures under quiet subscribers: the
    counter is the number of failures capped at the maximum, one timer is
    armed per counted attempt, and every failure beyond the maximum emits
    one terminal error. *)
Lemma run_failures events : forall w,
  quiet w -> forallb failure_event events = true ->
  reconnectAttempts w <= maxReconnectAttempts ->
  let n := reconnectAttempts w + failures events w in
  reconnectAttempts (run events w) = Nat.min maxReconnectAttempts n /\
  length (scheduled (trace (run events w))) =
    length (scheduled (trace w)) + (Nat.min maxReconnectAttempts n - reconnectAttempts w) /\
  max_errors (trace (run events w)) =
    max_errors (trace w) + (n - maxReconnectAttempts).
Proof.
  unfold maxReconnectAttempts.
  induction events as [|e rest IH]; intros w Hq Hall Hle; cbn zeta.
  - simpl. repeat split; lia.
  - simpl in Hall. apply andb_true_iff in Hall as [He Hrest].
    pose proof (step_failure e w Hq He) as Hstep.
    cbn [run failures]. set (w1 := snd (step e w)) in *.
    destruct (fails w e).
    + destruct Hstep as [Hl Hs]. unfold maxReconnectAttempts in Hs.
      destruct (Nat.leb_spec 5 (reconnectAttempts w)) as [Hfull|Hroom].
      * destruct Hs as (Ha & Hsch & Hm).
        destruct (IH w1 (quiet_listeners _ _ Hl Hq) Hrest ltac:(lia)) as (IA & IS & IM).
        cbn zeta in *. rewrite IA, IS, IM, Ha, Hsch, Hm. repeat split; lia.
      * destruct Hs as (Ha & Hsch & Hm).
        destruct (IH w1 (quiet_listeners _ _ Hl Hq) Hrest ltac:(lia)) as (IA & IS & IM).
        cbn zeta in *. rewrite IA, IS, IM, Ha, Hsch, Hm, length_app. simpl.
        repeat split; lia.
    + destruct Hstep as (Hl & Ha & _ & Hsch & Hm).
      destruct (IH w1 (quiet_listeners _ _ Hl Hq) Hrest ltac:(lia)) as (IA & IS & IM).
      cbn zeta in *. rewrite IA, IS, IM, Ha, Hsch, Hm. repeat split; lia.
Qed.
End Steps.

(** What any single event may do to the counter and to the timers armed:
    keep both, zero the counter, or, below the maximum only, count one
    attempt and arm one timer. *)
Definition budget_step (w w' : World) : Prop :=
  (reconnectAttempts w' = reconnectAttempts w /\
   scheduled (trace w') = scheduled (trace w)) \/
  (reconnectAttempts w' = 0 /\
   scheduled (trace w') = scheduled (trace w)) \/
  (reconnectAttempts w < maxReconnectAttempts /\
   reconnectAttempts w' = S (reconnectAttempts w) /\
   scheduled (trace w') = scheduled (trace w) ++ [next_timer w]).

Lemma untouched_step w w' : untouched w w' -> budget_step w w'.
Proof. intros (_ & Ha & _ & Hs & _). by left. Qed.

Lemma charged_step w w' : charged w w' -> budget_step w w'.
Proof.
  intros [_ Hc].
  destruct (Nat.leb_spec maxReconnectAttempts (reconnectAttempts w)) as [Hle|Hlt].
  - destruct Hc as (Ha & Hs & _). by left.
  - destruct Hc as (Ha & Hs & _). right. right. done.
Qed.

Lemma scheduled_silent es : forallb is_log es = true -> scheduled es = [].
Proof.
  intros Hall. induction es as [|e es IH]; [done|].
  simpl in Hall. apply andb_true_iff in Hall as [He Hes].
  destruct e; try discriminate He. by apply IH.
Qed.

Lemma max_errors_silent es : forallb is_log es = true -> max_errors es = 0.
Proof.
  intros Hall. unfold max_errors, emitted. by rewrite (logs_silent _ es Hall).
Qed.

Section AnyEvent.
Context {R : Runtime}.

(** [onmessage] touches nothing but the trace, and arms no timer. *)
Lemma onmessage_trace data w :
  exists es, snd (onmessage data w) = effects es w /\ scheduled es = [].
Proof.
  assert (Hd : forall event d, dispatched w (snd (onmessage data w)) event d ->
                 exists es, snd (onmessage data w) = effects es w /\ scheduled es = []).
  { intros event d (before & after & Hb & Ha & ->). eexists. split; [done|].
    by rewrite !scheduled_app, scheduled_emit, !scheduled_silent. }
  assert (Hx : dropped w (snd (onmessage data w)) ->
                 exists es, snd (onmessage data w) = effects es w /\ scheduled es = []).
  { intros (logs & Hl & ->). eexists. split; [done|]. by apply scheduled_silent. }
  destruct (JSON_parse data) as [msg|] eqn:Hparse;
    [|by apply Hx, (onmessage_malformed data w Hparse)].
  destruct (known_tag_dec (prop msg "type")) as [(tag & Hin & Htag)|Hother];
    [|by apply Hx, (onmessage_unknown data msg w Hparse Hother)].
  unfold known_tags in Hin.
  repeat (apply elem_of_cons in Hin as [->|Hin]);
    [ eapply Hd, (onmessage_status data msg w Hparse Htag)
    | eapply Hd, (onmessage_ack data msg w Hparse Htag)
    | eapply Hd, (onmessage_connected data msg w Hparse Htag)
    | eapply Hd, (onmessage_disconnected data msg w Hparse Htag)
    | eapply Hd, (onmessage_error data msg w Hparse Htag)
    | by apply elem_of_nil in Hin ].
Qed.

(** [onopen] zeroes the counter, whatever the subscribers do. *)
Lemma onopen_resets w :
  reconnectAttempts (snd (onopen w)) = 0 /\
  scheduled (trace (snd (onopen w))) = scheduled (trace w).
Proof.
  rewrite onopen_eq. cbn [snd]. rewrite trace_effects, scheduled_app, scheduled_emit.
  unfold disarmed. simpl. destruct (reconnectTimeout w); simpl;
    rewrite !scheduled_app; simpl; by rewrite !app_nil_r.
Qed.

Lemma step_budget e w : budget_step w (snd (step e w)).
Proof.
  destruct e.
  - (* connect *)
    rewrite step_connect. destruct (is_open w) eqn:Ho.
    + rewrite (connect_open backendUrl accepted w Ho). cbn [snd].
      apply untouched_step. by apply untouched_effects.
    + rewrite (connect_closed backendUrl accepted w Ho).
      set (w1 := effect (ELog "Connecting car")
                   (set_wsUrl (convertToWebSocketUrl backendUrl) w)).
      assert (Hu : untouched w w1) by solve_untouched.
      assert (Hb : untouched w (snd (connectWebSocket accepted w1)) \/
                   charged w (snd (connectWebSocket accepted w1))).
      { destruct accepted.
        - left. apply (untouched_trans w w1 _ Hu), connectWebSocket_accepted_budget.
        - destruct (connectWebSocket_rejected_budget w1) as [_ [Hk|Hc]].
          + left. by apply (untouched_trans w w1).
          + right. by apply (untouched_charged w w1). }
      destruct (connectWebSocket accepted w1) as [[[]|e] w']; cbn [snd] in *;
        (destruct Hb; [by apply untouched_step|by apply charged_step]).
  - (* sendCommand *)
    apply untouched_step. unfold step, void, bind, ret.
    destruct (is_open w) eqn:Ho.
    + destruct (is_open_socket w Ho) as (s & Hs & Hst).
      rewrite (sendCommand_open command0 speed0 now w s Hs Hst). cbn [snd].
      by apply untouched_effects.
    + rewrite (sendCommand_closed command0 speed0 now w Ho). cbn [snd].
      by apply untouched_effects.
  - (* on *)
    left. unfold step, on, modify. cbn [snd]. by repeat case_match.
  - (* off *)
    left. unfold step, off, modify. cbn [snd]. by repeat case_match.
  - (* disconnect *)
    right. left. unfold step. destruct (socket w) as [s|] eqn:Hs.
    + by destruct (disconnect_with_socket w s Hs) as (_ & _ & Ha & _ & _ & _ & Hsch).
    + rewrite disconnect_eq, Hs. done.
  - (* isConnected *) by left.
  - (* getSocket *) by left.
  - (* resetReconnectAttempts *) right. by left.
  - (* open *)
    rewrite step_open.
    destruct (sockets w !! s) as [[]|]; try (by left).
    right. left. apply (onopen_resets (set_sockets (<[s := OPEN]> (sockets w)) w)).
  - (* message *)
    unfold step, mbind, M_bind, bind, gets.
    destruct (sockets w !! s) as [[]|]; try (by left).
    destruct (onmessage_trace data w) as (es & -> & Hes).
    left. cbn [snd]. split; [done|].
    by rewrite trace_effects, scheduled_app, Hes, app_nil_r.
  - (* error *)
    unfold step, mbind, M_bind, bind, gets.
    destruct (sockets w !! s) as [[]|]; try (by left);
      rewrite onerror_eq; cbn [snd]; left; (split; [done|]);
      by rewrite trace_effects, scheduled_app, scheduled_log, scheduled_emit, app_nil_r.
  - (* close *)
    rewrite step_close.
    set (w1 := set_sockets (<[s := CLOSED]> (sockets w)) w).
    assert (Hu : untouched w w1) by solve_untouched.
    assert (Hb : budget_step w (snd (onclose code w1))).
    { destruct (onclose_budget code w1) as (_ & _ & [Hk|Hc]).
      - apply untouched_step. by apply (untouched_trans w w1).
      - apply charged_step. by apply (untouched_charged w w1). }
    destruct (sockets w !! s) as [[]|]; try exact Hb; by left.
  - (* timer *)
    rewrite step_timer.
    set (w1 := set_timers (List.filter (fun t' => negb (Nat.eqb t' t)) (timers w)) w).
    assert (Hu : untouched w w1) by solve_untouched.
    destruct (bool_decide (t ∈ timers w)); [|by left].
    destruct accepted.
    + apply untouched_step, (untouched_trans w w1 _ Hu), connectWebSocket_accepted_budget.
    + destruct (connectWebSocket_rejected_budget w1) as [_ [Hk|Hc]].
      * apply untouched_step. by apply (untouched_trans w w1).
      * apply charged_step. by apply (untouched_charged w w1).
Qed.

(** The counter never passes the maximum. *)
Lemma run_bounded events : forall w,
  reconnectAttempts w <= maxReconnectAttempts ->
  reconnectAttempts (run events w) <= maxReconnectAttempts.
Proof.
  induction events as [|e rest IH]; intros w Hle; [done|].
  cbn [run]. apply IH.
  destruct (step_budget e w) as [[-> _]|[[-> _]|(Hlt & -> & _)]];
    unfold maxReconnectAttempts in *; lia.
Qed.
End AnyEvent.

(** C1. Reconnect budget lifecycle.
    - The guard: [scheduleReconnect] below the maximum of 5 counts one
      attempt and then arms one timer; at the maximum it changes neither
      counter nor timers and emits [error] with the condition
      'Max reconnection attempts reached'.
    - Whatever the event and whatever the subscribers do, a step arms a
      timer only when the counter is below 5, and then the counter grows by
      one; so the counter never passes 5.
    - Along every sequence of abnormal closes, refused constructions and
      timer firings, with subscribers that return, the counter is the
      number of failures capped at 5, as many timers were armed as attempts
      counted, and each failure beyond the budget emitted one terminal
      error: after 5 failed attempts there is no 6th.
    - The open event of a connecting socket sets the counter to 0, which
      by the previous item restores a budget of 5. *)
Theorem reconnect_budget {R : Runtime} :
  (forall w,
     let w' := snd (scheduleReconnect w) in
     (reconnectAttempts w < maxReconnectAttempts ->
        fst (scheduleReconnect w) = Normal tt /\
        reconnectAttempts w' = S (reconnectAttempts w) /\
        scheduled (trace w') = scheduled (trace w) ++ [next_timer w] /\
        next_timer w ∈ timers w' /\
        ESetTimeout (next_timer w) reconnectDelay ∈ trace w') /\
     (maxReconnectAttempts <= reconnectAttempts w ->
        reconnectAttempts w' = reconnectAttempts w /\
        scheduled (trace w') = scheduled (trace w) /\
        timers w' = timers w /\
        emitted (trace w') = emitted (trace w) ++ [("error"%string, max_error)])) /\
  (forall e w, budget_step w (snd (step e w))) /\
  (forall events, reconnectAttempts (run events initial) <= maxReconnectAttempts) /\
  (forall events w,
     quiet w -> forallb failure_event events = true ->
     reconnectAttempts w <= maxReconnectAttempts ->
     let n := reconnectAttempts w + failures events w in
     reconnectAttempts (run events w) = Nat.min maxReconnectAttempts n /\
     length (scheduled (trace (run events w))) =
       length (scheduled (trace w)) + (Nat.min maxReconnectAttempts n - reconnectAttempts w) /\
     max_errors (trace (run events w)) =
       max_errors (trace w) + (n - maxReconnectAttempts)) /\
  (forall s w, sockets w !! s = Some CONNECTING ->
     reconnectAttempts (snd (step (WsOpen s) w)) = 0).
Proof.
  split; [|split; [|split; [|split]]].
  - intros w. cbn zeta. pose proof (scheduleReconnect_spends w) as [_ Hs]. split.
    + intros Hlt.
      destruct (Nat.leb_spec maxReconnectAttempts (reconnectAttempts w)); [lia|].
      destruct Hs as (? & ? & ? & ? & _ & ? & _). done.
    + intros Hle.
      destruct (Nat.leb_spec maxReconnectAttempts (reconnectAttempts w)); [|lia].
      destruct Hs as (? & ? & ? & ? & _). done.
  - apply step_budget.
  - intros events. apply run_bounded. unfold maxReconnectAttempts. simpl. lia.
  - intros events w. apply run_failures.
  - intros s w Hs. rewrite step_open, Hs. apply onopen_resets.
Qed.

(** Five abnormal closes, each followed by the retry it scheduled, and the
    close of the fifth retry. *)
Definition six_failures : list Event :=
  [WsClose 0 1006; TimerFired 1 true; WsClose 1 1006; TimerFired 2 true;
   WsClose 2 1006; TimerFired 3 true; WsClose 3 1006; TimerFired 4 true;
   WsClose 4 1006; TimerFired 5 true; WsClose 5 1006].

Lemma reconnect_budget_witness :
  reconnectAttempts (run (R:=browser) six_failures opened) = 5 /\
  length (scheduled (trace (run (R:=browser) six_failures opened))) = 5 /\
  max_errors (trace (run (R:=browser) six_failures opened)) = 1 /\
  reconnectAttempts
    (snd (step (R:=browser) (WsOpen 1)
            (run (R:=browser) [WsClose 0 1006; TimerFired 1 true] opened))) = 0.
Proof.
  destruct (reconnect_budget (R:=browser)) as (_ & _ & _ & Hrun & Hopen).
  assert (Hq : quiet (R:=browser) opened).
  { intros event h d Hin. unfold subscribers in Hin.
    change (listeners opened) with (∅ : gmap string (list nat)) in Hin.
    rewrite lookup_empty in Hin. by apply elem_of_nil in Hin. }
  assert (Hle : reconnectAttempts opened <= maxReconnectAttempts).
  { apply Nat.leb_le. reflexivity. }
  destruct (Hrun six_failures opened Hq eq_refl Hle) as (Ha & Hs & Hm).
  split; [rewrite Ha; reflexivity|].
  split; [rewrite Hs; reflexivity|].
  split; [rewrite Hm; reflexivity|].
  apply Hopen. reflexivity.
Defined.

(** * Further properties of the channel *)

(** ** Invariants of every run *)

(** An invariant of the initial world that every event preserves holds
    after every run. *)
Lemma run_invariant {R : Runtime} (P : World -> Prop) :
  (forall e w, P w -> P (snd (step e w))) ->
  forall events w, P w -> P (run events w).
Proof.
  intros Hstep events. induction events as [|e rest IH]; intros w Hw; [done|].
  cbn [run]. by apply IH, Hstep.
Qed.

(** The pending timers are at most the one the service remembers. *)
Definition one_timer (w : World) : Prop :=
  timers w = [] \/ exists t, timers w = [t] /\ reconnectTimeout w = Some t.

(** Same timers and same remembered timer. *)
Definition timers_kept (w w' : World) : Prop :=
  timers w' = timers w /\ reconnectTimeout w' = reconnectTimeout w.

Lemma one_timer_kept w w' : timers_kept w w' -> one_timer w -> one_timer w'.
Proof. intros [Ht Hr] Hw. unfold one_timer. by rewrite Ht, Hr. Qed.

Lemma one_timer_rearmed w : one_timer w -> one_timer (rearmed w).
Proof.
  intros Hw. right. exists (next_timer w). unfold rearmed; simpl. split; [|done].
  destruct Hw as [Hnil|(t & Ht & Hr)].
  - rewrite Hnil. by destruct (reconnectTimeout w).
  - rewrite Ht, Hr. simpl. by rewrite Nat.eqb_refl.
Qed.

Lemma one_timer_disarmed w : one_timer w -> timers (disarmed w) = [].
Proof.
  intros Hw. unfold disarmed. destruct Hw as [Hnil|(t & Ht & Hr)].
  - destruct (reconnectTimeout w); simpl; by rewrite Hnil.
  - rewrite Hr. simpl. rewrite Ht. simpl. by rewrite Nat.eqb_refl.
Qed.

Lemma timers_teardown w : timers_kept w (teardown w).
Proof. unfold teardown. by destruct (socket w). Qed.

Section Timers.
Context {R : Runtime}.

Lemma one_timer_scheduleReconnect w :
  one_timer w -> one_timer (snd (scheduleReconnect w)).
Proof.
  intros Hw.
  destruct (Nat.le_gt_cases maxReconnectAttempts (reconnectAttempts w)) as [Hle|Hlt].
  - rewrite scheduleReconnect_exhausted by done. exact Hw.
  - rewrite scheduleReconnect_budget by done. by apply one_timer_rearmed.
Qed.

Lemma one_timer_connectWebSocket accepted w :
  one_timer w -> one_timer (snd (connectWebSocket accepted w)).
Proof.
  intros Hw.
  assert (Ht : one_timer (teardown w))
    by exact (one_timer_kept w _ (timers_teardown w) Hw).
  destruct accepted.
  - rewrite connectWebSocket_accepted. exact Ht.
  - rewrite connectWebSocket_rejected. cbn zeta.
    destruct (thrown _ _); [exact Ht|].
    by apply one_timer_scheduleReconnect.
Qed.

Lemma one_timer_onclose code w : one_timer w -> one_timer (snd (onclose code w)).
Proof.
  intros Hw. rewrite onclose_eq. cbn zeta.
  destruct (thrown _ _); [exact Hw|].
  destruct (code =? 1000)%Z; [exact Hw|].
  by apply one_timer_scheduleReconnect.
Qed.

Lemma one_timer_onopen w :
  one_timer w ->
  timers (snd (onopen w)) = [] /\ reconnectTimeout (snd (onopen w)) = None.
Proof.
  intros Hw. rewrite onopen_eq. cbn [snd]. split.
  - apply (one_timer_disarmed
             (set_reconnectAttempts 0 (effect (ELog "Car WebSocket connected") w))), Hw.
  - cbn [reconnectTimeout effects]. unfold disarmed. simpl.
    by destruct (reconnectTimeout w) eqn:E.
Qed.

Lemma one_timer_disconnect w : one_timer w -> one_timer (snd (disconnect w)).
Proof.
  intros Hw. rewrite disconnect_eq. cbn [snd].
  destruct (socket w) as [s|]; [|exact Hw]. left. simpl.
  apply (one_timer_disarmed (effect (ELog "Disconnecting car WebSocket...") w)), Hw.
Qed.

Lemma one_timer_step e w : one_timer w -> one_timer (snd (step e w)).
Proof.
  intros Hw. destruct e.
  - rewrite step_connect. destruct (is_open w) eqn:Ho.
    + by rewrite (connect_open backendUrl accepted w Ho).
    + rewrite (connect_closed backendUrl accepted w Ho).
      pose proof (one_timer_connectWebSocket accepted
                    (effect (ELog "Connecting car")
                       (set_wsUrl (convertToWebSocketUrl backendUrl) w)) Hw) as Hc.
      by destruct (connectWebSocket accepted _) as [[[]|e] w'].
  - unfold step, void, bind, ret. destruct (is_open w) eqn:Ho.
    + destruct (is_open_socket w Ho) as (s & Hs & Hst).
      by rewrite (sendCommand_open command0 speed0 now w s Hs Hst).
    + by rewrite (sendCommand_closed command0 speed0 now w Ho).
  - unfold step, on, modify. cbn [snd]. by repeat case_match.
  - unfold step, off, modify. cbn [snd]. by repeat case_match.
  - by apply one_timer_disconnect.
  - exact Hw.
  - exact Hw.
  - exact Hw.
  - rewrite step_open. destruct (sockets w !! s) as [[]|]; try exact Hw.
    left. by apply (one_timer_onopen (set_sockets (<[s := OPEN]> (sockets w)) w)).
  - unfold step, mbind, M_bind, bind, gets.
    destruct (sockets w !! s) as [[]|]; try exact Hw.
    by destruct (onmessage_trace data w) as (es & -> & _).
  - unfold step, mbind, M_bind, bind, gets.
    destruct (sockets w !! s) as [[]|]; try exact Hw; by rewrite onerror_eq.
  - rewrite step_close.
    destruct (sockets w !! s) as [[]|]; try exact Hw;
      by apply (one_timer_onclose code (set_sockets (<[s := CLOSED]> (sockets w)) w)).
  - rewrite step_timer. destruct (bool_decide (t ∈ timers w)) eqn:Hin; [|exact Hw].
    apply one_timer_connectWebSocket. left. simpl.
    apply bool_decide_eq_true in Hin.
    destruct Hw as [Hnil|(t' & Ht & _)].
    + by rewrite Hnil.
    + rewrite Ht in Hin |- *. apply list_elem_of_singleton in Hin as ->.
      simpl. by rewrite Nat.eqb_refl.
Qed.

(** X1. Whatever the calls, the host events and the subscribers, at most
    one reconnect timer is pending at any time, and a pending timer is the
    one kept in [reconnectTimeout]: [scheduleReconnect] clears the timer it
    remembers before arming the next. *)
Theorem single_pending_timer (events : list Event) :
  let w := run events initial in
  timers w = [] \/ exists t, timers w = [t] /\ reconnectTimeout w = Some t.
Proof. apply (run_invariant one_timer one_timer_step). by left. Qed.

(** X3. In every run, when a connecting socket opens, no reconnect timer
    is left pending, none is remembered, and the retry counter is 0: a
    channel that has connected does not reconnect on a stale timer. *)
Theorem open_cancels_reconnect (events : list Event) (s : nat) :
  let w := run events initial in
  sockets w !! s = Some CONNECTING ->
  let w' := snd (step (WsOpen s) w) in
  timers w' = [] /\ reconnectTimeout w' = None /\ reconnectAttempts w' = 0 /\
  sockets w' !! s = Some OPEN /\
  emitted (trace w') = emitted (trace w) ++ [("connected"%string, JBool true)].
Proof.
  cbn zeta. intros Hs.
  assert (Hinv : one_timer (run events initial)).
  { apply (run_invariant one_timer one_timer_step). by left. }
  rewrite step_open, Hs.
  set (w := run events initial) in *.
  set (w1 := set_sockets (<[s := OPEN]> (sockets w)) w).
  destruct (one_timer_onopen w1 Hinv) as [Ht Hr].
  destruct (onopen_resets w1) as [Ha _].
  split; [exact Ht|]. split; [exact Hr|]. split; [exact Ha|]. split.
  - rewrite onopen_eq. cbn [snd]. unfold disarmed. simpl.
    assert (Hlook : <[s := OPEN]> (sockets w) !! s = Some OPEN).
    { apply list_lookup_insert_eq. by apply lookup_lt_Some in Hs. }
    by destruct (reconnectTimeout w).
  - rewrite onopen_eq. cbn [snd].
    rewrite trace_effects, emitted_app, emitted_emit. f_equal.
    unfold disarmed. simpl. destruct (reconnectTimeout w); simpl;
      rewrite !emitted_app; simpl; by rewrite !app_nil_r.
Qed.
End Timers.

(** A second [connect] before the first socket opened drops that socket;
    its close event arms a timer, which the open of the new socket clears. *)
Lemma open_cancels_reconnect_witness :
  let w := run (R:=browser)
             [Connect "http://car.local:3000" true; Connect "http://car.local:3000" true;
              WsClose 0 1005] initial in
  timers w = [1] /\
  timers (snd (step (R:=browser) (WsOpen 1) w)) = [] /\
  reconnectAttempts (snd (step (R:=browser) (WsOpen 1) w)) = 0.
Proof.
  cbn zeta.
  destruct (open_cancels_reconnect (R:=browser)
              [Connect "http://car.local:3000" true; Connect "http://car.local:3000" true;
               WsClose 0 1005] 1 eq_refl) as (Ht & _ & Ha & _).
  split; [reflexivity|]. split; [exact Ht|exact Ha].
Defined.

(** A socket that is connecting or open. *)
Definition is_live (st : ReadyState) : bool :=
  match st with
  | CONNECTING | OPEN => true
  | CLOSING | CLOSED => false
  end.

(** Every live socket is the one the service holds, and the socket it
    holds exists. *)
Definition owned (w : World) : Prop :=
  (forall s st, sockets w !! s = Some st -> is_live st = true -> socket w = Some s) /\
  (forall s, socket w = Some s -> s < length (sockets w)).

Definition host_kept (w w' : World) : Prop :=
  socket w' = socket w /\ sockets w' = sockets w.

Lemma owned_kept w w' : host_kept w w' -> owned w -> owned w'.
Proof. intros [Hs Hss] Hw. unfold owned. by rewrite Hs, Hss. Qed.

(** Closing the socket held leaves no live socket. *)
Lemma owned_closed w s code reason :
  owned w -> socket w = Some s ->
  owned (set_socket None
           (effect (EClose s code reason)
              (set_sockets
                 match sockets w !! s with
                 | Some CONNECTING | Some OPEN => <[s := CLOSING]> (sockets w)
                 | _ => sockets w
                 end w))).
Proof.
  intros [Hlive Hheld] Hs. split; simpl; [|done].
  intros s' st Hlook Hst. exfalso.
  assert (Hcase : sockets w !! s' = Some st \/ (s' = s /\ st = CLOSING)).
  { destruct (sockets w !! s) as [[]|] eqn:E; try (by left);
      (destruct (decide (s' = s)) as [->|Hne];
       [ right; rewrite list_lookup_insert_eq in Hlook
           by (by apply lookup_lt_Some in E); by injection Hlook as <-
       | left; by rewrite list_lookup_insert_ne in Hlook ]). }
  destruct Hcase as [Hold|[-> ->]]; [|done].
  pose proof (Hlive s' st Hold Hst) as Hown. rewrite Hs in Hown.
  injection Hown as <-. rewrite Hold in Hlook.
  destruct st; try done; simpl in Hlook;
    rewrite list_lookup_insert_eq in Hlook by (by apply lookup_lt_Some in Hold);
    done.
Qed.

Lemma owned_teardown w : owned w -> owned (teardown w) /\ socket (teardown w) = None.
Proof.
  intros Hw. unfold teardown. destruct (socket w) as [s|] eqn:Hs.
  - split; [|done]. by apply owned_closed.
  - done.
Qed.

(** A socket constructed when none is held is the only live one. *)
Lemma owned_constructed w url :
  owned w -> socket w = None ->
  owned (set_socket (Some (length (sockets w)))
           (effect (ENewSocket (length (sockets w)) url)
              (set_sockets (sockets w ++ [CONNECTING]) w))).
Proof.
  intros [Hlive _] Hs. split; simpl.
  - intros s st Hlook Hst.
    destruct (decide (s < length (sockets w))) as [Hlt|Hge].
    + rewrite lookup_app_l in Hlook by done.
      pose proof (Hlive s st Hlook Hst) as Hown. by rewrite Hs in Hown.
    + apply lookup_lt_Some in Hlook. rewrite length_app in Hlook. simpl in Hlook.
      f_equal. lia.
  - intros s [= <-]. rewrite length_app. simpl. lia.
Qed.

Lemma owned_readyState w s st st' :
  owned w -> sockets w !! s = Some st -> is_live st = true ->
  owned (set_sockets (<[s := st']> (sockets w)) w).
Proof.
  intros [Hlive Hheld] Hs Hst. split; simpl.
  - intros s' st'' Hlook Hlv. destruct (decide (s' = s)) as [->|Hne].
    + by apply (Hlive s st).
    + rewrite list_lookup_insert_ne in Hlook by done. by apply (Hlive s' st'').
  - intros s' Hs'. rewrite length_insert. by apply Hheld.
Qed.

Lemma owned_closed_event w s :
  owned w -> owned (set_sockets (<[s := CLOSED]> (sockets w)) w).
Proof.
  intros [Hlive Hheld]. split; simpl.
  - intros s' st Hlook Hlv. destruct (decide (s' = s)) as [->|Hne].
    + destruct (decide (s < length (sockets w))) as [Hlt|Hge].
      * rewrite list_lookup_insert_eq in Hlook by done. by injection Hlook as <-.
      * rewrite list_insert_ge in Hlook by lia. by apply (Hlive s st).
    + rewrite list_lookup_insert_ne in Hlook by done. by apply (Hlive s' st).
  - intros s' Hs'. rewrite length_insert. by apply Hheld.
Qed.

Section Sockets.
Context {R : Runtime}.

Lemma host_scheduleReconnect w : host_kept w (snd (scheduleReconnect w)).
Proof.
  destruct (Nat.le_gt_cases maxReconnectAttempts (reconnectAttempts w)) as [Hle|Hlt].
  - by rewrite scheduleReconnect_exhausted.
  - by rewrite scheduleReconnect_budget.
Qed.

Lemma owned_connectWebSocket accepted w :
  owned w -> owned (snd (connectWebSocket accepted w)).
Proof.
  intros Hw. destruct (owned_teardown w Hw) as [Ht Hnone].
  destruct accepted.
  - rewrite connectWebSocket_accepted. cbn zeta. cbn [snd].
    by apply owned_constructed.
  - rewrite connectWebSocket_rejected. cbn zeta.
    destruct (thrown _ _); [exact Ht|].
    eapply owned_kept; [apply host_scheduleReconnect|exact Ht].
Qed.

Lemma owned_onclose code w : owned w -> owned (snd (onclose code w)).
Proof.
  intros Hw. rewrite onclose_eq. cbn zeta.
  destruct (thrown _ _); [exact Hw|].
  destruct (code =? 1000)%Z; [exact Hw|].
  eapply owned_kept; [apply host_scheduleReconnect|exact Hw].
Qed.

Lemma owned_step e w : owned w -> owned (snd (step e w)).
Proof.
  intros Hw. destruct e.
  - rewrite step_connect. destruct (is_open w) eqn:Ho.
    + by rewrite (connect_open backendUrl accepted w Ho).
    + rewrite (connect_closed backendUrl accepted w Ho).
      pose proof (owned_connectWebSocket accepted
                    (effect (ELog "Connecting car")
                       (set_wsUrl (convertToWebSocketUrl backendUrl) w)) Hw) as Hc.
      by destruct (connectWebSocket accepted _) as [[[]|e] w'].
  - unfold step, void, bind, ret. destruct (is_open w) eqn:Ho.
    + destruct (is_open_socket w Ho) as (s & Hs & Hst).
      by rewrite (sendCommand_open command0 speed0 now w s Hs Hst).
    + by rewrite (sendCommand_closed command0 speed0 now w Ho).
  - unfold step, on, modify. cbn [snd]. by repeat case_match.
  - unfold step, off, modify. cbn [snd]. by repeat case_match.
  - unfold step. rewrite disconnect_eq. cbn [snd].
    destruct (socket w) as [s|] eqn:Hs; [|exact Hw]. cbn zeta.
    assert (Hd : host_kept w (disarmed (effect (ELog "Disconnecting car WebSocket...") w))).
    { unfold disarmed. simpl. by destruct (reconnectTimeout w). }
    pose proof (owned_kept _ _ Hd Hw) as Hw1.
    assert (Hs1 : socket (disarmed (effect (ELog "Disconnecting car WebSocket...") w))
                  = Some s) by (destruct Hd as [-> _]; done).
    exact (owned_closed _ s (Some 1000%Z) (Some "Manual disconnect"%string) Hw1 Hs1).
  - exact Hw.
  - exact Hw.
  - exact Hw.
  - rewrite step_open. destruct (sockets w !! s) as [[]|] eqn:Hs; try exact Hw.
    rewrite onopen_eq. cbn [snd].
    assert (Ho : owned (set_sockets (<[s := OPEN]> (sockets w)) w))
      by (by apply (owned_readyState w s CONNECTING)).
    eapply owned_kept; [|exact Ho].
    unfold disarmed. simpl. by destruct (reconnectTimeout w).
  - unfold step, mbind, M_bind, bind, gets.
    destruct (sockets w !! s) as [[]|]; try exact Hw.
    by destruct (onmessage_trace data w) as (es & -> & _).
  - unfold step, mbind, M_bind, bind, gets.
    destruct (sockets w !! s) as [[]|]; try exact Hw; by rewrite onerror_eq.
  - rewrite step_close.
    destruct (sockets w !! s) as [[]|]; try exact Hw;
      by apply owned_onclose, owned_closed_event.
  - rewrite step_timer. destruct (bool_decide (t ∈ timers w)); [|exact Hw].
    by apply owned_connectWebSocket.
Qed.

(** X2. In every run, at most one socket is connecting or open, and it
    is the socket the service holds: a new socket is constructed only after
    the one held was closed and dropped, and [disconnect] closes the one
    it drops.  The socket held always exists. *)
Theorem single_live_socket (events : list Event) :
  let w := run events initial in
  (forall s1 s2 st1 st2,
     sockets w !! s1 = Some st1 -> sockets w !! s2 = Some st2 ->
     is_live st1 = true -> is_live st2 = true -> s1 = s2) /\
  (forall s st, sockets w !! s = Some st -> is_live st = true -> socket w = Some s) /\
  (forall s, socket w = Some s -> s < length (sockets w)).
Proof.
  cbn zeta.
  assert (Hinv : owned (run events initial)).
  { apply (run_invariant owned owned_step). split; [|done].
    intros s st Hlook. by destruct s. }
  destruct Hinv as [Hlive Hheld]. split; [|split; [exact Hlive|exact Hheld]].
  intros s1 s2 st1 st2 H1 H2 L1 L2.
  pose proof (Hlive s1 st1 H1 L1) as E1. pose proof (Hlive s2 st2 H2 L2) as E2.
  congruence.
Qed.
End Sockets.

(** Three connects in a row: two sockets were dropped while connecting, and
    the third is the only live one and the one held. *)
Lemma single_live_socket_witness :
  let w := run (R:=browser)
             [Connect "http://car.local:3000" true; Connect "http://car.local:3000" true;
              Connect "http://car.local:3000" true] initial in
  sockets w = [CLOSING; CLOSING; CONNECTING] /\ socket w = Some 2.
Proof.
  cbn zeta.
  destruct (single_live_socket (R:=browser)
              [Connect "http://car.local:3000" true; Connect "http://car.local:3000" true;
               Connect "http://car.local:3000" true]) as (_ & Hheld & _).
  split; [reflexivity|]. exact (Hheld 2 CONNECTING eq_refl eq_refl).
Defined.

(** ** The shape of a derived URL *)

Lemma length_append (s t : string) :
  String.length (s ++ t)%string = String.length s + String.length t.
Proof. induction s as [|c s IH]; [done|]. rewrite append_cons. simpl. by rewrite IH. Qed.

Lemma substring_all (t : string) : String.substring 0 (String.length t) t = t.
Proof. induction t as [|c t IH]; [done|]. simpl. by rewrite IH. Qed.

Lemma substring_append (s t : string) :
  String.substring (String.length s) (String.length t) (s ++ t)%string = t.
Proof.
  induction s as [|c s IH]; [apply substring_all|].
  rewrite append_cons. simpl. exact IH.
Qed.

Lemma endsWith_append (s suf : string) : endsWith (s ++ suf) suf = true.
Proof.
  unfold endsWith. rewrite length_append.
  replace (String.length s + String.length suf - String.length suf)
    with (String.length s) by lia.
  rewrite substring_append, String.eqb_refl, andb_true_r.
  apply Nat.leb_le. lia.
Qed.

Lemma startsWith_split (s pre : string) :
  startsWith s pre = true -> s = (pre ++ drop_chars (String.length pre) s)%string.
Proof.
  unfold startsWith. revert s. induction pre as [|c pre IH]; intros s; [done|].
  destruct s as [|c' s]; simpl; [done|].
  destruct (ascii_dec c c') as [<-|]; [|done].
  intros Hp. rewrite append_cons. f_equal. by apply IH.
Qed.

Lemma startsWith_append_l (s t pre : string) :
  startsWith s pre = true -> startsWith (s ++ t) pre = true.
Proof.
  intros Hp. rewrite (startsWith_split s pre Hp), append_assoc.
  apply startsWith_append.
Qed.

Section UrlShape.
Context {R : Runtime}.

(** Whatever [new URL] does, the derived URL has a WebSocket scheme and
    the [/ws] path. *)
Lemma convert_shape s :
  (startsWith (convertToWebSocketUrl s) "ws://" = true \/
   startsWith (convertToWebSocketUrl s) "wss://" = true) /\
  endsWith (convertToWebSocketUrl s) "/ws" = true.
Proof.
  unfold convertToWebSocketUrl.
  destruct (URL_new s) as [u|].
  - cbn zeta. destruct (String.eqb (protocol u) "https:").
    + change (("wss:" ++ "//" ++ host u ++ "/ws")%string)
        with (("wss://" ++ (host u ++ "/ws"))%string).
      split; [right; apply startsWith_append|].
      rewrite <- append_assoc. apply endsWith_append.
    + change (("ws:" ++ "//" ++ host u ++ "/ws")%string)
        with (("ws://" ++ (host u ++ "/ws"))%string).
      split; [left; apply startsWith_append|].
      rewrite <- append_assoc. apply endsWith_append.
  - destruct (startsWith s "http://") eqn:H1.
    + rewrite (startsWith_split s _ H1), replace_prefix. split.
      * left. rewrite append_assoc. apply startsWith_append.
      * apply endsWith_append.
    + destruct (startsWith s "https://") eqn:H2.
      * rewrite (startsWith_split s _ H2), replace_prefix. split.
        -- right. rewrite append_assoc. apply startsWith_append.
        -- apply endsWith_append.
      * destruct (startsWith s "ws://") eqn:H3; simpl.
        -- destruct (endsWith s "/ws") eqn:H5.
           ++ split; [by left|done].
           ++ split; [left; by apply startsWith_append_l|apply endsWith_append].
        -- destruct (startsWith s "wss://") eqn:H4.
           ++ destruct (endsWith s "/ws") eqn:H5.
              ** split; [by right|done].
              ** split; [right; by apply startsWith_append_l|apply endsWith_append].
           ++ split; [left; apply startsWith_append|].
              rewrite <- (append_assoc "ws://" s "/ws"). apply endsWith_append.
Qed.

(** X4. For every input and every runtime, the URL [connect] derives
    starts with [ws://] or [wss://] and ends with [/ws]. *)
Theorem derived_url_shape (backendUrl : string) :
  (startsWith (convertToWebSocketUrl backendUrl) "ws://" = true \/
   startsWith (convertToWebSocketUrl backendUrl) "wss://" = true) /\
  endsWith (convertToWebSocketUrl backendUrl) "/ws" = true.
Proof. apply convert_shape. Qed.

(** X5. Where [new URL] does not parse, deriving is idempotent: a URL
    that was derived already is derived into itself, with no second [/ws]
    and the same scheme. *)
Theorem derive_idempotent (backendUrl : string) :
  URL_new (convertToWebSocketUrl backendUrl) = None ->
  convertToWebSocketUrl (convertToWebSocketUrl backendUrl) =
  convertToWebSocketUrl backendUrl.
Proof.
  intros Hnone. destruct (convert_shape backendUrl) as [Hstart Hend].
  set (u := convertToWebSocketUrl backendUrl) in *.
  unfold convertToWebSocketUrl at 1. fold u. rewrite Hnone.
  assert (Hh : startsWith u "http://" = false /\ startsWith u "https://" = false).
  { destruct Hstart as [Hs|Hs]; rewrite (startsWith_split u _ Hs); done. }
  destruct Hh as [-> ->].
  destruct Hstart as [->| ->]; simpl; rewrite ?orb_true_r, Hend; done.
Qed.
End UrlShape.

Lemma derive_idempotent_witness :
  convertToWebSocketUrl (R:=legacy) (convertToWebSocketUrl (R:=legacy) "https://car.local:8443")
  = "wss://car.local:8443/ws"%string.
Proof.
  rewrite (derive_idempotent (R:=legacy) "https://car.local:8443" eq_refl).
  reflexivity.
Defined.

(** ** Connecting, exhausting and resetting *)

Section Connecting.
Context {R : Runtime}.

Lemma is_open_teardown_constructed w url :
  is_open (set_socket (Some (length (sockets w)))
             (effect (ENewSocket (length (sockets w)) url)
                (set_sockets (sockets w ++ [CONNECTING]) w))) = false.
Proof.
  unfold is_open. simpl.
  rewrite lookup_app_r by lia. by rewrite Nat.sub_diag.
Qed.

Lemma socket_scheduleReconnect w : socket (snd (scheduleReconnect w)) = socket w.
Proof. by destruct (host_scheduleReconnect w). Qed.

(** After [connectWebSocket] the channel is not Open: the socket it holds,
    if any, is still connecting. *)
Lemma connectWebSocket_not_open accepted w :
  is_open (snd (connectWebSocket accepted w)) = false.
Proof.
  destruct accepted.
  - rewrite connectWebSocket_accepted. cbn zeta. cbn [snd].
    apply is_open_teardown_constructed.
  - assert (Hn : socket (snd (connectWebSocket false w)) = None).
    { rewrite connectWebSocket_rejected. cbn zeta.
      assert (Ht : socket (teardown w) = None)
        by (unfold teardown; by destruct (socket w) eqn:E).
      destruct (thrown _ _); [exact Ht|].
      rewrite socket_scheduleReconnect. exact Ht. }
    unfold is_open. by rewrite Hn.
Qed.

(** X6. [connect] returns before the channel is Open. On a channel that
    is not Open, [connect] leaves it not Open, whether the socket was
    constructed or refused; so a [sendCommand] issued right after
    [connect], before the open event, returns [false] and writes
    nothing. *)
Theorem connect_returns_before_open (url : string) (accepted : bool) (w : World)
    (c : Command.t) (sp : option spec_float) (now : Z) :
  is_open w = false ->
  let w' := snd (connect url accepted w) in
  is_open w' = false /\
  fst (sendCommand c sp now w') = Normal false /\
  writes (trace (snd (sendCommand c sp now w'))) = writes (trace w').
Proof.
  intros Hc. cbn zeta.
  assert (Ho : is_open (snd (connect url accepted w)) = false).
  { rewrite (connect_closed url accepted w Hc).
    pose proof (connectWebSocket_not_open accepted
                  (effect (ELog "Connecting car")
                     (set_wsUrl (convertToWebSocketUrl url) w))) as Hn.
    by destruct (connectWebSocket accepted _) as [[[]|e] w']. }
  split; [exact Ho|]. rewrite (sendCommand_closed c sp now _ Ho). cbn [fst snd].
  split; [done|]. unfold effect. rewrite trace_effects, writes_app. simpl.
  by rewrite app_nil_r.
Qed.

(** X7. [connect] does not touch the retry counter. Once the budget is
    exhausted, a [connect] whose socket cannot be constructed emits the
    terminal error at once and arms no timer; after
    [resetReconnectAttempts] the same failure counts as attempt 1 and arms
    a timer. *)
Theorem exhausted_until_reset (url : string) (w : World) :
  reconnectAttempts (snd (connect url true w)) = reconnectAttempts w /\
  (maxReconnectAttempts <= reconnectAttempts w -> is_open w = false ->
   thrown (subscribers w "error") construction_error = None ->
   (let w1 := snd (connect url false w) in
    reconnectAttempts w1 = reconnectAttempts w /\
    scheduled (trace w1) = scheduled (trace w) /\
    max_errors (trace w1) = S (max_errors (trace w))) /\
   (let w2 := snd (connect url false (snd (resetReconnectAttempts w))) in
    reconnectAttempts w2 = 1 /\
    scheduled (trace w2) = scheduled (trace w) ++ [next_timer w] /\
    max_errors (trace w2) = max_errors (trace w))).
Proof.
  assert (Hfail : forall w0, is_open w0 = false ->
            thrown (subscribers w0 "error") construction_error = None ->
            charged w0 (snd (connect url false w0))).
  { intros w0 Hc Hq. rewrite (connect_closed url false w0 Hc).
    set (w1 := effect (ELog "Connecting car")
                 (set_wsUrl (convertToWebSocketUrl url) w0)).
    assert (Hu : untouched w0 w1) by solve_untouched.
    destruct (connectWebSocket_rejected_budget w1) as [Hch _].
    specialize (Hch Hq).
    destruct (connectWebSocket false w1) as [[[]|e] w']; cbn [snd] in *;
      by apply (untouched_charged w0 w1). }
  split.
  - destruct (is_open w) eqn:Ho.
    + by rewrite (connect_open url true w Ho).
    + rewrite (connect_closed url true w Ho).
      set (w1 := effect (ELog "Connecting car")
                   (set_wsUrl (convertToWebSocketUrl url) w)).
      pose proof (connectWebSocket_accepted_budget w1) as (_ & Ha & _).
      by destruct (connectWebSocket true w1) as [[[]|e] w'].
  - intros Hle Hc Hq. split; cbn zeta.
    + destruct (Hfail w Hc Hq) as [_ Hch].
      destruct (Nat.leb_spec maxReconnectAttempts (reconnectAttempts w)); [|lia].
      exact Hch.
    + destruct (Hfail (snd (resetReconnectAttempts w)) Hc Hq) as [_ Hch].
      exact Hch.
Qed.
End Connecting.

(** Five failed constructions exhaust the budget; the sixth [connect] gets
    the terminal error and no timer, and after a reset the next one is
    scheduled again. *)
Definition exhausted : World :=
  run (R:=browser)
    [Connect "http://bad host" false; TimerFired 1 false; TimerFired 2 false;
     TimerFired 3 false; TimerFired 4 false] initial.

Lemma connect_returns_before_open_witness :
  fst (sendCommand (R:=browser) Command.stop None 0
         (snd (connect (R:=browser) "http://car.local:3000" true initial))) = Normal false.
Proof.
  exact (proj1 (proj2 (connect_returns_before_open (R:=browser) "http://car.local:3000"
                         true initial Command.stop None 0%Z eq_refl))).
Defined.

Lemma exhausted_until_reset_witness :
  reconnectAttempts exhausted = 5 /\
  length (scheduled (trace (snd (connect (R:=browser) "http://bad host" false exhausted)))) = 5 /\
  length (scheduled (trace (snd (connect (R:=browser) "http://bad host" false
                                   (snd (resetReconnectAttempts exhausted)))))) = 6.
Proof.
  destruct (exhausted_until_reset (R:=browser) "http://bad host" exhausted) as [_ Hex].
  assert (Hle : maxReconnectAttempts <= reconnectAttempts exhausted)
    by (apply Nat.leb_le; reflexivity).
  destruct (Hex Hle eq_refl eq_refl) as [(_ & Hs1 & _) (_ & Hs2 & _)].
  split; [reflexivity|]. split.
  - rewrite Hs1. reflexivity.
  - rewrite Hs2. reflexivity.
Defined.

(** ** Subscribers that throw *)

Section Throwing.
Context {R : Runtime}.

Lemma invoked_until l1 h l2 d e :
  (forall h', h' ∈ l1 -> handler_throws h' d = None) ->
  handler_throws h d = Some e ->
  invoked (l1 ++ h :: l2) d = l1 ++ [h] /\ thrown (l1 ++ h :: l2) d = Some e.
Proof.
  intros Hq Hh. induction l1 as [|h1 l1 IH]; simpl.
  - by rewrite Hh.
  - rewrite (Hq h1) by (apply elem_of_cons; by left).
    assert (Hr : forall h', h' ∈ l1 -> handler_throws h' d = None)
      by (intros h' Hh'; apply Hq, elem_of_cons; by right).
    destruct (IH Hr) as [E1 E2]. by rewrite E1, E2.
Qed.

(** X8. [emit] has no failure boundary between subscribers: when a
    subscriber throws, the subscribers registered before it have been
    called, those registered after it are not called, and the exception is
    the result of [emit]. *)
Theorem emit_stops_at_throw (k : string) (d e : JsVal) (w : World)
    (l1 l2 : list Handler) (h : Handler) :
  subscribers w k = l1 ++ h :: l2 ->
  (forall h', h' ∈ l1 -> handler_throws h' d = None) ->
  handler_throws h d = Some e ->
  fst (emit k d w) = Throw e /\
  calls (trace (snd (emit k d w))) =
    calls (trace w) ++ map (fun h' => (h', d)) (l1 ++ [h]).
Proof.
  intros Hsub Hq Hh. rewrite emit_eq, Hsub.
  destruct (invoked_until l1 h l2 d e Hq Hh) as [-> ->]. cbn [fst snd completion].
  split; [done|].
  rewrite trace_effects, calls_app. f_equal.
  apply (calls_ECall d (l1 ++ [h])).
Qed.

(** X9. [onclose] emits [connected] before it looks at the close code, so
    a [connected] subscriber that throws ends the callback there: the close
    of a live socket with an abnormal code then counts no attempt and arms
    no timer, however much budget is left. *)
Theorem throwing_subscriber_stops_reconnect (s : nat) (code : Z) (e : JsVal)
    (w : World) (l1 l2 : list Handler) (h : Handler) :
  subscribers w "connected" = l1 ++ h :: l2 ->
  (forall h', h' ∈ l1 -> handler_throws h' (JBool false) = None) ->
  handler_throws h (JBool false) = Some e ->
  let w' := snd (step (WsClose s code) w) in
  timers w' = timers w /\
  reconnectAttempts w' = reconnectAttempts w /\
  scheduled (trace w') = scheduled (trace w) /\
  (is_live <$> sockets w !! s = Some true -> fst (step (WsClose s code) w) = Throw e).
Proof.
  intros Hsub Hq Hh. cbn zeta. rewrite step_close.
  destruct (invoked_until l1 h l2 (JBool false) e Hq Hh) as [_ Hthrown].
  rewrite <- Hsub in Hthrown.
  assert (Hc : forall w1, subscribers w1 "connected" = subscribers w "connected" ->
             onclose code w1 =
             (Throw e, effects (ELog "Car WebSocket disconnected" ::
                                emit_effects w1 "connected" (JBool false)) w1)).
  { intros w1 Hw1. rewrite onclose_eq. cbn zeta. by rewrite Hw1, Hthrown. }
  destruct (sockets w !! s) as [[]|] eqn:Hs; simpl;
    rewrite ?Hc by done; cbn [fst snd];
    rewrite ?trace_effects, ?scheduled_app, ?scheduled_log, ?scheduled_emit, ?app_nil_r;
    done.
Qed.
End Throwing.

Lemma emit_stops_at_throw_witness :
  let w := run (R:=browser) [On "status" 1; On "status" faulty; On "status" 2] initial in
  fst (emit (R:=browser) "status" JNull w) = Throw (JError "subscriber failed") /\
  calls (trace (snd (emit (R:=browser) "status" JNull w))) = [(1, JNull); (faulty, JNull)].
Proof.
  cbn zeta.
  assert (Hq : forall h', h' ∈ [1] -> handler_throws (Runtime:=browser) h' JNull = None).
  { intros h' Hin. apply list_elem_of_singleton in Hin as ->. reflexivity. }
  exact (emit_stops_at_throw (R:=browser) "status" JNull (JError "subscriber failed")
           (run (R:=browser) [On "status" 1; On "status" faulty; On "status" 2] initial)
           [1] [2] faulty eq_refl Hq eq_refl).
Defined.

Lemma throwing_subscriber_stops_reconnect_witness :
  let w := snd (on "connected" faulty opened) in
  reconnectAttempts w = 0 /\
  timers (snd (step (R:=browser) (WsClose 0 1006) w)) = [] /\
  fst (step (R:=browser) (WsClose 0 1006) w) = Throw (JError "subscriber failed").
Proof.
  cbn zeta.
  assert (Hq : forall h', h' ∈ [] -> handler_throws (Runtime:=browser) h' (JBool false) = None).
  { intros h' Hin. by apply elem_of_nil in Hin. }
  destruct (throwing_subscriber_stops_reconnect (R:=browser) 0 1006
              (JError "subscriber failed") (snd (on "connected" faulty opened))
              [] [] faulty eq_refl Hq eq_refl) as (Ht & _ & _ & Hthrow).
  split; [reflexivity|]. split; [exact Ht|]. exact (Hthrow eq_refl).
Defined.

(** ** Disconnecting and re-subscribing *)

Section Teardown.
Context {R : Runtime}.

(** X10. [disconnect] is idempotent, and what it leaves is a closed
    channel with no subscriber: a second [disconnect] changes nothing at
    all, [isConnected] is false, [sendCommand] returns [false], and an
    [emit] of any kind calls nobody. *)
Theorem disconnect_idempotent (w : World) :
  let w' := snd (disconnect w) in
  snd (disconnect w') = w' /\
  is_open w' = false /\
  (forall c sp now, fst (sendCommand c sp now w') = Normal false) /\
  (forall k, subscribers w' k = []) /\
  (forall k d, calls (trace (snd (emit k d w'))) = calls (trace w')).
Proof.
  cbn zeta.
  assert (Hs : socket (snd (disconnect w)) = None).
  { rewrite disconnect_eq. cbn [snd]. by destruct (socket w) eqn:E. }
  assert (Hl : listeners (snd (disconnect w)) = ∅) by (by rewrite disconnect_eq).
  assert (Ha : reconnectAttempts (snd (disconnect w)) = 0) by (by rewrite disconnect_eq).
  assert (Ho : is_open (snd (disconnect w)) = false) by (unfold is_open; by rewrite Hs).
  assert (Hsub : forall k, subscribers (snd (disconnect w)) k = []).
  { intros k. unfold subscribers. by rewrite Hl, lookup_empty. }
  split; [|split; [exact Ho|split; [|split; [exact Hsub|]]]].
  - rewrite (disconnect_eq (snd (disconnect w))), Hs. cbn [snd].
    destruct (snd (disconnect w)) as [so li ra rt url ss ts nt tr].
    simpl in *. by subst.
  - intros c sp now. by rewrite (sendCommand_closed c sp now _ Ho).
  - intros k d. rewrite emit_eq, Hsub. cbn [snd].
    rewrite trace_effects, calls_app. simpl. by rewrite app_nil_r.
Qed.

(** X11. Subscribing a handler and unsubscribing it again: when the
    handler was not registered for the kind, the subscribers of every kind
    are as before; when it was, its earlier entry is the one removed and
    the handler ends up last in the calling order. *)
Theorem on_off_round_trip (k : string) (h : Handler) (w : World) :
  let w' := snd (off k (Some h) (snd (on k h w))) in
  (forall k', k' <> k -> subscribers w' k' = subscribers w k') /\
  (h ∉ subscribers w k -> subscribers w' k = subscribers w k) /\
  (forall l1 l2, subscribers w k = l1 ++ h :: l2 -> h ∉ l1 ->
                 subscribers w' k = l1 ++ l2 ++ [h]).
Proof.
  cbn zeta.
  assert (Hk : subscribers (snd (off k (Some h) (snd (on k h w)))) k
               = remove_first h (subscribers w k ++ [h])).
  { rewrite off_one_subscribers, on_subscribers. by rewrite !decide_True. }
  split; [|split].
  - intros k' Hne. rewrite off_one_subscribers.
    destruct (decide (k = k')); [congruence|]. rewrite on_subscribers.
    destruct (decide (k = k')); [congruence|done].
  - intros Hnot. rewrite Hk.
    rewrite (remove_first_split h (subscribers w k) [] Hnot). by rewrite app_nil_r.
  - intros l1 l2 Hsplit Hnot. rewrite Hk, Hsplit, <- app_assoc. simpl.
    by rewrite (remove_first_split h l1 (l2 ++ [h]) Hnot).
Qed.
End Teardown.

Lemma on_off_round_trip_witness :
  let w := run (R:=browser) [On "status" 1; On "status" 2; On "status" 3] initial in
  subscribers (snd (off "status" (Some 9) (snd (on "status" 9 w)))) "status" = [1; 2; 3] /\
  subscribers (snd (off "status" (Some 1) (snd (on "status" 1 w)))) "status" = [2; 3; 1].
Proof.
  cbn zeta. split.
  - destruct (on_off_round_trip "status" 9
                (run (R:=browser) [On "status" 1; On "status" 2; On "status" 3] initial))
      as (_ & Hfresh & _).
    rewrite Hfresh; [reflexivity|].
    intros Hin. repeat (apply elem_of_cons in Hin as [Hin|Hin]; [discriminate Hin|]).
    by apply elem_of_nil in Hin.
  - destruct (on_off_round_trip "status" 1
                (run (R:=browser) [On "status" 1; On "status" 2; On "status" 3] initial))
      as (_ & _ & Hmoved).
    apply (Hmoved [] [2; 3]); [reflexivity|].
    intros Hin. by apply elem_of_nil in Hin.
Defined.

(** * The screen that drives the channel

    The car-control part of [app/index.tsx]: the state the screen keeps,
    the subscribers it registers on the channel, the speed control and the
    functions behind its buttons. *)

(** JavaScript truthiness. *)
Definition truthy (v : JsVal) : bool :=
  match v with
  | JUndefined | JNull => false
  | JBool b => b
  | JNum n => negb (n =? 0)%Z
  | JStr s => negb (String.eqb s "")
  | JArr _ | JObj _ | JError _ => true
  end.

(** [v?.k] *)
Definition optional_prop (v : JsVal) (k : string) : JsVal :=
  match v with
  | JUndefined | JNull => JUndefined
  | _ => prop v k
  end.

Fixpoint chars (s : string) : list JsVal :=
  match s with
  | EmptyString => []
  | String c rest => JStr (String c EmptyString) :: chars rest
  end.

(** The own enumerable properties that [{...v}] copies. *)
Definition spread (v : JsVal) : list (string * JsVal) :=
  match v with
  | JObj fields => fields
  | JArr items => imap (fun i item => (pretty i, item)) items
  | JStr s => imap (fun i item => (pretty i, item)) (chars s)
  | _ => []
  end.

(** [{...fields, k: v}]: an existing key keeps its place and takes the new
    value, a new key comes last. *)
Fixpoint with_field (k : string) (v : JsVal) (fields : list (string * JsVal))
  : list (string * JsVal) :=
  match fields with
  | [] => [(k, v)]
  | (k', v') :: rest =>
      if String.eqb k k' then (k', v) :: rest else (k', v') :: with_field k v rest
  end.

Record Screen := mkScreen {
  carConnected : JsVal;
  carConnecting : bool;
  carStatus : JsVal;
  lastCarCommand : JsVal;
  motorSpeed : Z;
  alerts : list (string * string)
}.

(** The state of the first render. *)
Definition first_render : Screen :=
  {| carConnected := JBool false; carConnecting := false; carStatus := JNull;
     lastCarCommand := JNull; motorSpeed := 200; alerts := [] |}.

Definition setCarConnected (v : JsVal) (ui : Screen) : Screen :=
  mkScreen v (carConnecting ui) (carStatus ui) (lastCarCommand ui) (motorSpeed ui) (alerts ui).
Definition setCarConnecting (v : bool) (ui : Screen) : Screen :=
  mkScreen (carConnected ui) v (carStatus ui) (lastCarCommand ui) (motorSpeed ui) (alerts ui).
Definition setCarStatus (v : JsVal) (ui : Screen) : Screen :=
  mkScreen (carConnected ui) (carConnecting ui) v (lastCarCommand ui) (motorSpeed ui) (alerts ui).
Definition setLastCarCommand (v : JsVal) (ui : Screen) : Screen :=
  mkScreen (carConnected ui) (carConnecting ui) (carStatus ui) v (motorSpeed ui) (alerts ui).
Definition setMotorSpeed (v : Z) (ui : Screen) : Screen :=
  mkScreen (carConnected ui) (carConnecting ui) (carStatus ui) (lastCarCommand ui) v (alerts ui).
Definition alert (title message : string) (ui : Screen) : Screen :=
  mkScreen (carConnected ui) (carConnecting ui) (carStatus ui) (lastCarCommand ui)
           (motorSpeed ui) (alerts ui ++ [(title, message)]).

(** What happens to the screen: a press on the speed control, or the
    channel calling one of the subscribers the screen registered, with the
    payload the channel built.  [Typed parsed] is an edit of the speed
    field whose text [parseInt] reads as [parsed], [None] being [NaN]. *)
Inductive ScreenEvent :=
  | Slower
  | Faster
  | Typed (parsed : option Z)
  | OnConnected (connected : JsVal)
  | OnStatus (status : JsVal)
  | OnAcknowledgment (data : JsVal)
  | OnDeviceDisconnected.

Definition screen_step (e : ScreenEvent) (ui : Screen) : Screen :=
  match e with
  | Slower => setMotorSpeed (Z.max 0 (motorSpeed ui - 25)) ui
  | Faster => setMotorSpeed (Z.min 255 (motorSpeed ui + 25)) ui
  | Typed parsed =>
      (* parseInt(text) || 0 *)
      let speed := match parsed with
                   | Some n => if (n =? 0)%Z then 0%Z else n
                   | None => 0%Z
                   end in
      setMotorSpeed (Z.max 0 (Z.min 255 speed)) ui
  | OnConnected connected => setCarConnecting false (setCarConnected connected ui)
  | OnStatus status => setCarStatus status ui
  | OnAcknowledgment data => setLastCarCommand (prop data "command") ui
  | OnDeviceDisconnected =>
      setCarStatus
        (if truthy (carStatus ui)
         then JObj (with_field "connected" (JBool false) (spread (carStatus ui)))
         else JNull) ui
  end.

Fixpoint screen_run (events : list ScreenEvent) (ui : Screen) : Screen :=
  match events with
  | [] => ui
  | e :: rest => screen_run rest (screen_step e ui)
  end.

Section ScreenCalls.
Context {R : Runtime}.

(** [sendCarCommand]; [now] is the clock reading [sendCommand] takes, and
    the speed handed over is the number the speed state holds. *)
Definition sendCarCommand (command : Command.t) (now : Z) (ui : Screen) (w : World)
  : Completion unit * (Screen * World) :=
  if negb (is_open w) then
    (Normal tt, (alert "Error" "Car not connected to server" ui, w))
  else if negb (truthy (optional_prop (carStatus ui) "connected")) then
    (Normal tt, (alert "Error" "ESP32 car is not connected to server" ui, w))
  else
    match sendCommand command (Some (Number.of_Z (motorSpeed ui))) now w with
    | (Normal success, w') =>
        (Normal tt,
         (if success then setLastCarCommand (JStr (Command.name command)) ui else ui, w'))
    | (Throw e, w') => (Throw e, (ui, w'))
    end.

(** [disconnectCarWebSocket] *)
Definition disconnectCarWebSocket (ui : Screen) (w : World)
  : Completion unit * (Screen * World) :=
  match disconnect w with
  | (Normal _, w') =>
      (Normal tt,
       (setLastCarCommand JNull (setCarStatus JNull (setCarConnected (JBool false) ui)), w'))
  | (Throw e, w') => (Throw e, (ui, w'))
  end.
End ScreenCalls.

(** ** The speed the screen sends *)

Definition speed_in_range (ui : Screen) : Prop := (0 <= motorSpeed ui <= 255)%Z.

Lemma screen_step_speed e ui : speed_in_range ui -> speed_in_range (screen_step e ui).
Proof.
  unfold speed_in_range. intros Hr. destruct e; simpl; lia.
Qed.

Lemma screen_run_speed events : forall ui,
  speed_in_range ui -> speed_in_range (screen_run events ui).
Proof.
  induction events as [|e rest IH]; intros ui Hr; [done|].
  cbn [screen_run]. by apply IH, screen_step_speed.
Qed.

Section ScreenProperties.
Context {R : Runtime}.

Lemma disconnect_drops w :
  fst (disconnect w) = Normal tt /\ socket (snd (disconnect w)) = None.
Proof. rewrite disconnect_eq. cbn [fst snd]. split; [done|]. by destruct (socket w) eqn:E. Qed.

(** The three outcomes of [sendCarCommand]. *)
Lemma sendCarCommand_cases command now ui w :
  (is_open w = false /\
   sendCarCommand command now ui w =
     (Normal tt, (alert "Error" "Car not connected to server" ui, w))) \/
  (is_open w = true /\ truthy (optional_prop (carStatus ui) "connected") = false /\
   sendCarCommand command now ui w =
     (Normal tt, (alert "Error" "ESP32 car is not connected to server" ui, w))) \/
  (is_open w = true /\ truthy (optional_prop (carStatus ui) "connected") = true /\
   exists s, socket w = Some s /\
     sendCarCommand command now ui w =
       (Normal tt,
        (setLastCarCommand (JStr (Command.name command)) ui,
         effects [ESend s (JSON_stringify
                             {| command := command;
                                speed := Number.of_Z (motorSpeed ui);
                                timestamp := now |});
                  ELog "Car command sent"] w))).
Proof.
  unfold sendCarCommand. destruct (is_open w) eqn:Ho; simpl; [|by left].
  right. destruct (truthy _) eqn:Ht; simpl; [right|by left].
  destruct (is_open_socket w Ho) as (s & Hs & Hst).
  rewrite (sendCommand_open command (Some (Number.of_Z (motorSpeed ui))) now w s Hs Hst).
  split; [done|]. split; [done|]. by exists s.
Qed.

(** X12. Starting from the first render, whatever is pressed or typed
    on the speed control and whatever the channel reports, the speed of the
    screen stays within 0..255; so every message [sendCarCommand] writes
    carries a speed within 0..255, written as its decimal digits, although
    the channel itself does not check it. *)
Theorem screen_speed_bounded (events : list ScreenEvent) (command : Command.t)
    (now : Z) (w : World) :
  let ui := screen_run events first_render in
  let w' := snd (snd (sendCarCommand command now ui w)) in
  (0 <= motorSpeed ui <= 255)%Z /\
  (writes (trace w') = writes (trace w) \/
   exists s m, writes (trace w') = writes (trace w) ++ [(s, JSON_stringify m)] /\
               speed m = Number.of_Z (motorSpeed ui) /\
               JSON_number (speed m) = pretty (motorSpeed ui) /\
               (0 <= motorSpeed ui <= 255)%Z).
Proof.
  cbn zeta.
  assert (Hr : speed_in_range (screen_run events first_render)).
  { apply screen_run_speed. unfold speed_in_range. simpl. lia. }
  split; [exact Hr|].
  destruct (sendCarCommand_cases command now (screen_run events first_render) w)
    as [[_ ->]|[(_ & _ & ->)|(_ & _ & s & _ & ->)]]; cbn [snd]; [by left|by left|].
  right. eexists s, _. rewrite trace_effects, writes_app. split; [done|].
  cbn [speed]. split; [done|]. split; [|exact Hr].
  apply JSON_number_small. unfold speed_in_range in Hr. lia.
Qed.

(** X13. [sendCarCommand] writes to the wire only when the channel is
    Open and the last car status has a truthy [connected]; then it writes
    once, the command pressed at the speed of the screen, and remembers the
    command.  Otherwise it raises an alert and writes nothing; this is the
    case right after the [device_disconnected] subscriber ran, and right
    after [disconnectCarWebSocket]. *)
Theorem screen_send_gating (command : Command.t) (now : Z) (ui : Screen) (w : World) :
  (is_open w && truthy (optional_prop (carStatus ui) "connected") = false ->
     let r := sendCarCommand command now ui w in
     fst r = Normal tt /\ snd (snd r) = w /\
     length (alerts (fst (snd r))) = S (length (alerts ui)) /\
     lastCarCommand (fst (snd r)) = lastCarCommand ui) /\
  (is_open w && truthy (optional_prop (carStatus ui) "connected") = true ->
     let r := sendCarCommand command now ui w in
     exists s, socket w = Some s /\
       fst r = Normal tt /\
       writes (trace (snd (snd r))) =
         writes (trace w) ++
         [(s, JSON_stringify {| command := command;
                                speed := Number.of_Z (motorSpeed ui);
                                timestamp := now |})] /\
       lastCarCommand (fst (snd r)) = JStr (Command.name command) /\
       alerts (fst (snd r)) = alerts ui) /\
  truthy (optional_prop (carStatus (screen_step OnDeviceDisconnected ui)) "connected")
    = false /\
  is_open (snd (snd (disconnectCarWebSocket ui w))) = false.
Proof.
  split; [|split; [|split]].
  - intros Hg. cbn zeta.
    destruct (sendCarCommand_cases command now ui w)
      as [[Ho ->]|[(Ho & Ht & ->)|(Ho & Ht & _)]]; cbn [fst snd].
    + simpl. rewrite length_app. simpl. split; [done|]. split; [done|]. split; [lia|done].
    + simpl. rewrite length_app. simpl. split; [done|]. split; [done|]. split; [lia|done].
    + by rewrite Ho, Ht in Hg.
  - intros Hg. cbn zeta. apply andb_true_iff in Hg as [Ho Ht].
    destruct (sendCarCommand_cases command now ui w)
      as [[Ho' _]|[(_ & Ht' & _)|(_ & _ & s & Hs & ->)]]; [congruence|congruence|].
    exists s. cbn [fst snd]. rewrite trace_effects, writes_app. done.
  - simpl. destruct (truthy (carStatus ui)); [|done]. simpl.
    assert (Hw : forall fields, assoc "connected" (with_field "connected" (JBool false) fields)
                                = JBool false).
    { induction fields as [|[k v] rest IH]; [done|]. cbn [with_field].
      destruct (String.eqb "connected" k) eqn:E; cbn [assoc]; by rewrite E. }
    by rewrite Hw.
  - unfold disconnectCarWebSocket.
    destruct (disconnect_drops w) as [Hf Hs].
    destruct (disconnect w) as [c w']. cbn [fst snd] in Hf, Hs. subst c.
    cbn [snd]. unfold is_open. by rewrite Hs.
Qed.
End ScreenProperties.

Lemma screen_send_gating_witness :
  let ui := screen_run [OnStatus (JObj [("connected"%string, JBool true)]); Slower]
              first_render in
  writes (trace (snd (snd (sendCarCommand (R:=browser) Command.forward 7 ui opened)))) =
    [(0, JSON_stringify {| command := Command.forward; speed := Number.of_Z 175;
                           timestamp := 7 |})] /\
  snd (snd (sendCarCommand (R:=browser) Command.forward 7 first_render opened)) = opened.
Proof.
  cbn zeta. split.
  - destruct (screen_send_gating (R:=browser) Command.forward 7
                (screen_run [OnStatus (JObj [("connected"%string, JBool true)]); Slower]
                   first_render) opened) as (_ & Hsend & _).
    destruct (Hsend eq_refl) as (s & Hs & _ & Hw & _).
    assert (s = 0) as -> by (vm_compute in Hs; congruence).
    exact Hw.
  - destruct (screen_send_gating (R:=browser) Command.forward 7 first_render opened)
      as (Hrefuse & _).
    exact (proj1 (proj2 (Hrefuse eq_refl))).
Defined.

(** * The REST client

    [services/carApi.ts], the HTTP transport for the same commands.  A
    method is an [async] function: its completion is how its promise
    settles, [Throw] being a rejection.  What the server answers to the
    [n]-th request of a call is the host's choice, given as [answers n]. *)

Module CarAPI.

Inductive Reply :=
  | Replied (data : JsVal)
  | Rejected (error : JsVal).

Inductive ApiEffect :=
  | Post (url : string) (command : Command.t) (speed : Z) (timeout : Z)
  | Sleep (ms : Z)
  | Console (msg : string).

(** One entry of the array given to [sendCommandSequence]. *)
Record Item := { item_command : Command.t; item_speed : option Z; item_delay : option Z }.

Record Api := { baseURL : string; effects : list ApiEffect }.

Definition setBaseURL (url : string) (api : Api) : Api :=
  {| baseURL := url; effects := effects api |}.

Definition did (e : ApiEffect) (api : Api) : Api :=
  {| baseURL := baseURL api; effects := effects api ++ [e] |}.

(** Send car control command via REST API; [speed] is [None] when the
    argument is omitted. *)
Definition sendCommand (reply : Reply) (command : Command.t) (speed : option Z)
    (api : Api) : Completion JsVal * Api :=
  let speed := default 200%Z speed in
  let api := did (Console "Sending car command") api in
  let api := did (Post (baseURL api ++ "/car/control") command speed 5000) api in
  match reply with
  | Replied data => (Normal data, did (Console "Car command response") api)
  | Rejected error => (Throw error, did (Console "Car command error") api)
  end.

(** [cmd.speed || 200] *)
Definition speed_or_default (speed : option Z) : Z :=
  match speed with
  | Some n => if (n =? 0)%Z then 200%Z else n
  | None => 200%Z
  end.

(** Send multiple commands in sequence *)
Fixpoint sendCommandSequence (answers : nat -> Reply) (commands : list Item)
    (api : Api) : Completion unit * Api :=
  match commands with
  | [] => (Normal tt, api)
  | cmd :: rest =>
      match sendCommand (answers 0) (item_command cmd)
              (Some (speed_or_default (item_speed cmd))) api with
      | (Throw e, api') => (Throw e, api')
      | (Normal _, api') =>
          let api'' := match item_delay cmd with
                       | Some ms => if (ms =? 0)%Z then api' else did (Sleep ms) api'
                       | None => api'
                       end in
          sendCommandSequence (fun n => answers (S n)) rest api''
      end
  end.

(** Emergency stop - send stop command immediately *)
Definition emergencyStop (reply : Reply) (api : Api) : Completion JsVal * Api :=
  sendCommand reply Command.stop (Some 0%Z) api.

(** The requests in a list of effects, without their URL and timeout. *)
Definition posted (es : list ApiEffect) : list (Command.t * Z) :=
  omap (fun e => match e with Post _ c sp _ => Some (c, sp) | _ => None end) es.

Definition request_of (cmd : Item) : Command.t * Z :=
  (item_command cmd, speed_or_default (item_speed cmd)).

Lemma posted_app a b : posted (a ++ b) = posted a ++ posted b.
Proof. apply omap_app. Qed.

Lemma speed_or_default_nonzero sp : speed_or_default sp <> 0%Z.
Proof.
  unfold speed_or_default. destruct sp as [n|]; [|done].
  destruct (Z.eqb_spec n 0); [done|lia].
Qed.

(** What one step of the sequence does. *)
Lemma sendCommand_posts reply c sp api :
  posted (effects (snd (sendCommand reply c sp api))) =
    posted (effects api) ++ [(c, default 200%Z sp)] /\
  baseURL (snd (sendCommand reply c sp api)) = baseURL api /\
  fst (sendCommand reply c sp api) =
    match reply with Replied data => Normal data | Rejected e => Throw e end.
Proof.
  unfold sendCommand. destruct reply; cbn [fst snd effects baseURL did];
    rewrite !posted_app; simpl; rewrite !app_nil_r; done.
Qed.

Lemma sequence_all_replied commands : forall answers api,
  (forall n, n < length commands -> exists data, answers n = Replied data) ->
  fst (sendCommandSequence answers commands api) = Normal tt /\
  posted (effects (snd (sendCommandSequence answers commands api))) =
    posted (effects api) ++ map request_of commands.
Proof.
  induction commands as [|cmd rest IH]; intros answers api Hok.
  - simpl. by rewrite app_nil_r.
  - cbn [sendCommandSequence].
    destruct (sendCommand_posts (answers 0) (item_command cmd)
                (Some (speed_or_default (item_speed cmd))) api) as (Hp & _ & Hf).
    destruct (Hok 0) as [data Hd]; [simpl; lia|].
    destruct (sendCommand (answers 0) _ _ api) as [[v|e] api'];
      cbn [fst snd] in Hf, Hp; rewrite Hd in Hf; [|discriminate Hf].
    set (api'' := match item_delay cmd with
                  | Some ms => if (ms =? 0)%Z then api' else did (Sleep ms) api'
                  | None => api'
                  end).
    assert (Hp' : posted (effects api'') = posted (effects api')).
    { unfold api''. destruct (item_delay cmd) as [ms|]; [|done].
      destruct (ms =? 0)%Z; [done|]. simpl. rewrite posted_app. simpl.
      by rewrite app_nil_r. }
    destruct (IH (fun n => answers (S n)) api'') as [Hn Hrest].
    { intros n Hn. apply Hok. simpl. lia. }
    split; [exact Hn|]. rewrite Hrest, Hp', Hp. simpl. by rewrite <- app_assoc.
Qed.

Lemma sequence_rejected commands : forall answers api k e,
  k < length commands ->
  (forall n, n < k -> exists data, answers n = Replied data) ->
  answers k = Rejected e ->
  fst (sendCommandSequence answers commands api) = Throw e /\
  posted (effects (snd (sendCommandSequence answers commands api))) =
    posted (effects api) ++ map request_of (take (S k) commands).
Proof.
  induction commands as [|cmd rest IH]; intros answers api k e Hk Hok Hrej.
  - simpl in Hk. lia.
  - cbn [sendCommandSequence].
    destruct (sendCommand_posts (answers 0) (item_command cmd)
                (Some (speed_or_default (item_speed cmd))) api) as (Hp & _ & Hf).
    destruct k as [|k].
    + destruct (sendCommand (answers 0) _ _ api) as [[v|e'] api'];
        cbn [fst snd] in *; rewrite Hrej in Hf; [discriminate Hf|].
      injection Hf as ->. split; [done|].
      rewrite Hp. simpl. by rewrite ?take_0.
    + destruct (Hok 0) as [data Hd]; [lia|].
      destruct (sendCommand (answers 0) _ _ api) as [[v|e'] api'];
        cbn [fst snd] in Hf, Hp; rewrite Hd in Hf; [|discriminate Hf].
      set (api'' := match item_delay cmd with
                    | Some ms => if (ms =? 0)%Z then api' else did (Sleep ms) api'
                    | None => api'
                    end).
      assert (Hp' : posted (effects api'') = posted (effects api')).
      { unfold api''. destruct (item_delay cmd) as [ms|]; [|done].
        destruct (ms =? 0)%Z; [done|]. simpl. rewrite posted_app. simpl.
        by rewrite app_nil_r. }
      destruct (IH (fun n => answers (S n)) api'' k e) as [Hn Hrest].
      { simpl in Hk. lia. }
      { intros n Hn. apply Hok. lia. }
      { exact Hrej. }
      split; [exact Hn|]. rewrite Hrest, Hp', Hp. simpl. by rewrite <- app_assoc.
Qed.

(** X14. [sendCommandSequence] posts the commands in order and stops at
    the first request that is rejected, with that rejection: the commands
    after it are not sent.  Each request carries [speed || 200], so an
    entry with speed 0 is sent with speed 200 (no request of a sequence has
    speed 0), whereas [emergencyStop] does send speed 0. *)
Theorem sequence_requests (answers : nat -> Reply) (commands : list Item) (api : Api) :
  ((forall n, n < length commands -> exists data, answers n = Replied data) ->
     fst (sendCommandSequence answers commands api) = Normal tt /\
     posted (effects (snd (sendCommandSequence answers commands api))) =
       posted (effects api) ++ map request_of commands) /\
  (forall k e, k < length commands ->
     (forall n, n < k -> exists data, answers n = Replied data) ->
     answers k = Rejected e ->
     fst (sendCommandSequence answers commands api) = Throw e /\
     posted (effects (snd (sendCommandSequence answers commands api))) =
       posted (effects api) ++ map request_of (take (S k) commands)) /\
  (forall cmd, snd (request_of cmd) <> 0%Z) /\
  (forall c, request_of {| item_command := c; item_speed := Some 0%Z; item_delay := None |}
             = (c, 200%Z)) /\
  (forall reply, posted (effects (snd (emergencyStop reply api))) =
                 posted (effects api) ++ [(Command.stop, 0%Z)]).
Proof.
  split; [apply sequence_all_replied|]. split; [apply sequence_rejected|].
  split; [intros cmd; apply speed_or_default_nonzero|]. split; [done|].
  intros reply. unfold emergencyStop.
  by destruct (sendCommand_posts reply Command.stop (Some 0%Z) api) as (-> & _).
Qed.

(** The sequence of the service's README, against a server that rejects
    the second request. *)
Definition readme_sequence : list Item :=
  [ {| item_command := Command.forward; item_speed := Some 200%Z; item_delay := Some 1000%Z |};
    {| item_command := Command.right; item_speed := Some 150%Z; item_delay := Some 500%Z |};
    {| item_command := Command.stop; item_speed := Some 0%Z; item_delay := None |} ].

Definition fresh : Api := {| baseURL := "http://192.168.0.115:3000"; effects := [] |}.

Lemma sequence_requests_witness :
  posted (effects (snd (sendCommandSequence (fun _ => Replied JNull) readme_sequence fresh)))
    = [(Command.forward, 200%Z); (Command.right, 150%Z); (Command.stop, 200%Z)] /\
  posted (effects (snd (sendCommandSequence
                          (fun n => if Nat.eqb n 1 then Rejected (JError "timeout")
                                    else Replied JNull) readme_sequence fresh)))
    = [(Command.forward, 200%Z); (Command.right, 150%Z)].
Proof.
  split.
  - destruct (sequence_requests (fun _ => Replied JNull) readme_sequence fresh)
      as (Hall & _).
    destruct Hall as [_ Hp]; [intros n _; by exists JNull|]. exact Hp.
  - destruct (sequence_requests
                (fun n => if Nat.eqb n 1 then Rejected (JError "timeout") else Replied JNull)
                readme_sequence fresh) as (_ & Hrej & _).
    destruct (Hrej 1 (JError "timeout")) as [_ Hp].
    + simpl. lia.
    + intros n Hn. exists JNull. destruct n; [done|lia].
    + reflexivity.
    + exact Hp.
Defined.

End CarAPI.

(** * The settings provider

    [providers/CameraProvider.tsx]: the backend URL handed to [connect],
    the production switch, and their copy in the device storage.  Whether
    the storage can be read or written is the host's choice, given to each
    function as [readable] or [writable]. *)

Module Settings.

Definition PRODUCTION_URL : string := "https://iot-backend-uy96.onrender.com".

(** [__DEV__] and [Platform.OS], fixed for a build on a device. *)
Record Build := { dev : bool; os : string }.

Record Provider := {
  backendUrl : string;
  isProduction : bool;
  storage : gmap string string
}.

(** Auto-detect backend URL based on platform (for emulator support) *)
Definition getDefaultBackendUrl (b : Build) : string :=
  if dev b then
    if String.eqb (os b) "android" then "http://10.0.2.2:3000"
    else if String.eqb (os b) "ios" then "http://localhost:3000"
    else "http://192.168.0.115:3000"
  else "http://192.168.0.115:3000".

Definition setBackendUrlState (url : string) (p : Provider) : Provider :=
  {| backendUrl := url; isProduction := isProduction p; storage := storage p |}.
Definition setIsProductionState (v : bool) (p : Provider) : Provider :=
  {| backendUrl := backendUrl p; isProduction := v; storage := storage p |}.
Definition setItem (k v : string) (p : Provider) : Provider :=
  {| backendUrl := backendUrl p; isProduction := isProduction p;
     storage := <[k := v]> (storage p) |}.

(** The state of the first render. *)
Definition mounted (b : Build) (saved : gmap string string) : Provider :=
  {| backendUrl := getDefaultBackendUrl b; isProduction := false; storage := saved |}.

(** Load saved settings from storage *)
Definition loadSavedSettings (readable : bool) (p : Provider) : Provider :=
  if readable then
    let savedBackendUrl := storage p !! "backend_url" in
    let savedIsProduction := storage p !! "is_production" in
    let p := match savedBackendUrl with
             | Some url => if String.eqb url "" then p else setBackendUrlState url p
             | None => p
             end in
    match savedIsProduction with
    | Some saved =>
        let p := setIsProductionState (String.eqb saved "true") p in
        (* If production mode is enabled, use production URL *)
        if String.eqb saved "true" then setBackendUrlState PRODUCTION_URL p else p
    | None => p
    end
  else p.

Definition setBackendUrl (writable : bool) (url : string) (p : Provider) : Provider :=
  let p := setBackendUrlState url p in
  if writable then setItem "backend_url" url p else p.

Definition setIsProduction (b : Build) (writable : bool) (value : bool) (p : Provider)
  : Provider :=
  let p := setIsProductionState value p in
  if writable then
    let p := setItem "is_production" (if value then "true" else "false") p in
    (* Auto-update URL when switching modes *)
    if value then setBackendUrlState PRODUCTION_URL p
    else setBackendUrlState (getDefaultBackendUrl b) p
  else p.

(** X15. What the provider saves is what a later start loads.  A URL
    saved with [setBackendUrl] is the URL after [loadSavedSettings] on the
    next start, unless it is empty or production mode is saved, in which
    case the production URL wins over any saved URL; the production switch
    saved with [setIsProduction] is the switch after loading.  When the
    storage cannot be written, [setIsProduction] flips the switch but
    leaves the URL as it was; when it cannot be read, loading changes
    nothing. *)
Theorem settings_round_trip (b : Build) (p : Provider) :
  (forall url, url <> ""%string -> storage p !! "is_production" <> Some "true"%string ->
     backendUrl (loadSavedSettings true
                   (mounted b (storage (setBackendUrl true url p)))) = url) /\
  (forall saved, saved !! "is_production" = Some "true"%string ->
     backendUrl (loadSavedSettings true (mounted b saved)) = PRODUCTION_URL /\
     isProduction (loadSavedSettings true (mounted b saved)) = true) /\
  (forall value,
     isProduction (loadSavedSettings true
                     (mounted b (storage (setIsProduction b true value p)))) = value) /\
  (forall value,
     backendUrl (setIsProduction b false value p) = backendUrl p /\
     isProduction (setIsProduction b false value p) = value /\
     storage (setIsProduction b false value p) = storage p) /\
  loadSavedSettings false p = p.
Proof.
  split; [|split; [|split; [|split]]].
  - intros url Hne Hprod. unfold loadSavedSettings, setBackendUrl, mounted. simpl.
    rewrite lookup_insert_eq, lookup_insert_ne by done.
    destruct (String.eqb_spec url ""); [done|].
    destruct (storage p !! "is_production") as [saved|] eqn:E; [|done].
    destruct (String.eqb_spec saved "true") as [->|]; [done|]. done.
  - intros saved Hs. unfold loadSavedSettings, mounted. simpl. rewrite Hs. simpl.
    by destruct (saved !! "backend_url") as [url|]; [destruct (String.eqb url "")|].
  - intros value. unfold loadSavedSettings, setIsProduction, mounted.
    destruct value; simpl; rewrite lookup_insert_eq, lookup_insert_ne by done;
      by destruct (storage p !! "backend_url") as [url|]; [destruct (String.eqb url "")|].
  - done.
  - done.
Qed.

Lemma settings_round_trip_witness :
  let b := {| dev := true; os := "android" |} in
  let p := mounted b ∅ in
  backendUrl (loadSavedSettings true
                (mounted b (storage (setBackendUrl true "http://192.168.1.7:3000" p))))
    = "http://192.168.1.7:3000"%string /\
  backendUrl (loadSavedSettings true
                (mounted b (storage (setIsProduction b true true
                                       (setBackendUrl true "http://192.168.1.7:3000" p)))))
    = PRODUCTION_URL.
Proof.
  cbn zeta. split.
  - destruct (settings_round_trip {| dev := true; os := "android" |}
                (mounted {| dev := true; os := "android" |} ∅)) as (Hurl & _).
    apply Hurl; [discriminate|]. unfold mounted; simpl. rewrite lookup_empty. discriminate.
  - destruct (settings_round_trip {| dev := true; os := "android" |}
                (mounted {| dev := true; os := "android" |} ∅)) as (_ & Hprod & _).
    apply Hprod. reflexivity.
Defined.

End Settings.
